(** * Bulk Video Processor: argument builder, engine handle manager,
      job orchestrator and archive exporter

    A shallow embedding of the batch-processing logic of the page component
    ([buildArgs], [getOutputName], [handleProcess], [handleZip]), of
    [lib/ffmpeg.ts] ([getFFmpeg]) and of [utils/zip] ([zipBlobsAsZipFile]),
    with the properties of the design document stated over it.

    JavaScript values are modelled as follows.
    - [number]: the finite values, as exact rationals ([Q]).  The string form
      of a number ([String(n)]) is left abstract ([NumberToString]).
    - string unions (["mp4" | "webm"], ...): inductive types.
    - optional fields ([trimStartSec?: number]): [option].
    - thrown values ([catch (err: any)]): the type [JsValue].
    - promises and [await]: a state-and-exception monad over the [World];
      what the environment (the engine, the file system) answers is an
      explicit input of the run. *)

From Stdlib Require Import QArith Qround ZArith String Ascii List Lia DecimalString.
From stdpp Require Import base list.
Import ListNotations.
Close Scope Q_scope.
Open Scope string_scope.
Open Scope list_scope.

(** ** JavaScript preliminaries *)

(** The finite number values.  Arithmetic on them is the exact one of [Q];
    the source rounds each product and difference to binary64.  What is
    stated below of a computed number is either passed on to a parameter
    ([String_number]) or a bound or an order that rounding keeps; where a
    value is named, the operands and the result are binary64 values, so
    that nothing is rounded. *)
Definition number := Q.

(** [a > b] on numbers. *)
Definition number_gt (a b : number) : bool := negb (Qle_bool a b).

(** [String(n)] for a number [n]. *)
Class NumberToString := String_number : number -> string.

(** An instance for the examples only: the decimal expansion, cut after
    twenty fractional digits.  It agrees with JavaScript on the integers
    below 10^21 and on the binary fractions of at most twenty decimal
    digits (2, 6, 0.5, 2.25), which are the values of the examples; it is
    not the shortest representation that JavaScript prints for other
    binary64 values (0.1), nor its exponent notation.  No statement on
    [buildArgs] depends on it: they hold for every [NumberToString]. *)
Fixpoint fraction_digits (n : nat) (r d : Z) : string :=
  match n with
  | O => ""
  | S n' =>
      if (r =? 0)%Z then ""
      else (NilZero.string_of_int (Z.to_int (10 * r / d))
              ++ fraction_digits n' ((10 * r) mod d)%Z d)%string
  end.

Definition decimal_string : NumberToString :=
  fun q =>
    let d := Z.pos (Qden q) in
    let a := Z.abs (Qnum q) in
    ((if (Qnum q <? 0)%Z then "-" else "")
       ++ NilZero.string_of_int (Z.to_int (a / d))
       ++ (if (a mod d =? 0)%Z then "" else "." ++ fraction_digits 20 (a mod d) d))%string.

(** [Math.round]: the nearest integer, ties towards +infinity. *)
Definition Math_round (x : number) : Z := Qfloor (x + (1 # 2))%Q.

(** [Math.min] on integer-valued numbers. *)
Definition Math_min (a b : Z) : Z := Z.min a b.

(** Values that the code meets as the operand of [catch]. *)
Inductive JsValue :=
| JsUndefined
| JsNull
| JsString (s : string)
| JsError (name message : string).  (* an Error object and its two own fields *)

(** [v?.message] *)
Definition opt_message (v : JsValue) : JsValue :=
  match v with
  | JsError _ message => JsString message
  | _ => JsUndefined
  end.

Definition truthy (v : JsValue) : bool :=
  match v with
  | JsUndefined | JsNull => false
  | JsString s => negb (s =? "")
  | JsError _ _ => true
  end.

(** [a || b] *)
Definition js_or (a b : JsValue) : JsValue := if truthy a then a else b.

(** [String(v)]; for an Error object this is [Error.prototype.toString]. *)
Definition String_value (v : JsValue) : string :=
  match v with
  | JsUndefined => "undefined"
  | JsNull => "null"
  | JsString s => s
  | JsError name message =>
      if name =? "" then message
      else if message =? "" then name
      else name ++ ": " ++ message
  end.

(** Outcome of an awaited call: a thrown value or a result. *)
Definition result (A : Type) : Type := JsValue + A.

Definition bytes := list Byte.byte.

(** ** Data model of the page *)

Inductive Format := mp4 | webm.
Inductive Resolution := source | res720p | res1080p.
Inductive Bitrate := auto | rate1M | rate2_5M | rate5M.

Definition Format_string (f : Format) : string :=
  match f with mp4 => "mp4" | webm => "webm" end.

Definition Bitrate_string (b : Bitrate) : string :=
  match b with auto => "auto" | rate1M => "1M" | rate2_5M => "2.5M" | rate5M => "5M" end.

Record Options := {
  format : Format;
  resolution : Resolution;
  bitrate : Bitrate;
  trimStartSec : option number;
  trimEndSec : option number;
}.

Definition DEFAULT_OPTIONS : Options :=
  {| format := mp4; resolution := source; bitrate := auto;
     trimStartSec := None; trimEndSec := None |}.

Definition Format_eqb (a b : Format) : bool :=
  match a, b with mp4, mp4 | webm, webm => true | _, _ => false end.

(** ** Argument builder *)

Section ArgumentBuilder.
Context `{NumberToString}.

Definition buildArgs (inputName outputName : string) (opts : Options) : list string :=
  let args := ["-y"] in
  let args :=
    match trimStartSec opts with
    | Some ts => if number_gt ts 0%Q then args ++ ["-ss"; String_number ts] else args
    | None => args
    end in
  let args := args ++ ["-i"; inputName] in
  let args :=
    match trimEndSec opts, trimStartSec opts with
    | Some te, Some ts =>
        if number_gt te ts then
          let duration := (te - ts)%Q in
          args ++ ["-t"; String_number duration]
        else args
    | _, _ => args
    end in
  let args :=
    if Format_eqb (format opts) mp4
    then args ++ ["-c:v"; "libx264"; "-pix_fmt"; "yuv420p"]
    else args ++ ["-c:v"; "libvpx-vp9"] in
  let args :=
    match bitrate opts with
    | auto => args
    | b => args ++ ["-b:v"; Bitrate_string b]
    end in
  let args :=
    match resolution opts with
    | res720p => args ++ ["-vf"; "scale='min(1280,iw)':'-2':force_original_aspect_ratio=decrease"]
    | res1080p => args ++ ["-vf"; "scale='min(1920,iw)':'-2':force_original_aspect_ratio=decrease"]
    | source => args
    end in
  let args :=
    if Format_eqb (format opts) mp4
    then args ++ ["-c:a"; "aac"; "-b:a"; "128k"]
    else args ++ ["-c:a"; "libopus"; "-b:a"; "96k"] in
  args ++ [outputName].

End ArgumentBuilder.

(** *** Reading an argument sequence

    The engine reads the sequence from left to right: [-y] is a switch, each
    of the other flags that [buildArgs] emits takes the next element as its
    value (whatever that element is), and any other element names an
    output. *)

Inductive CliItem :=
| Switch (flag : string)
| Flag (flag value : string)
| Output (name : string).

Definition takes_value (flag : string) : bool :=
  existsb (String.eqb flag)
    ["-ss"; "-i"; "-t"; "-c:v"; "-pix_fmt"; "-b:v"; "-vf"; "-c:a"; "-b:a"].

Fixpoint read_args (args : list string) : list CliItem :=
  match args with
  | [] => []
  | a :: rest =>
      if a =? "-y" then Switch a :: read_args rest
      else if takes_value a then
        match rest with
        | v :: rest' => Flag a v :: read_args rest'
        | [] => [Output a]
        end
      else Output a :: read_args rest
  end.

(** The values given to [flag], in order of appearance. *)
Definition flag_values (flag : string) (items : list CliItem) : list string :=
  flat_map (fun it => match it with
                      | Flag f v => if f =? flag then [v] else []
                      | _ => []
                      end) items.

Definition duration_flags `{NumberToString} (i o : string) (opts : Options) : list string :=
  flag_values "-t" (read_args (buildArgs i o opts)).


(** ** Files, blobs and jobs *)

Record File := {
  name : string;
  type : string;
  arrayBuffer : result bytes;   (* what [file.arrayBuffer()] settles to *)
}.

#[warnings="-register-all"]
Inductive Blob :=
| DataBlob (data : bytes) (mime : string)
| ZipBlob (entries : list (string * Blob)).

(** An object URL ([URL.createObjectURL]): its rank in the URL store. *)
Definition ObjectURL := nat.

Inductive Status := Pending | Processing | Done | Error.

Record VideoJob := {
  file : File;
  outputName : string;
  progress : Z;                 (* 0..100 *)
  status : Status;
  error : option string;
  downloadUrl : option ObjectURL;
}.

Definition Status_eqb (a b : Status) : bool :=
  match a, b with
  | Pending, Pending | Processing, Processing | Done, Done | Error, Error => true
  | _, _ => false
  end.

Definition set_status (s : Status) (j : VideoJob) : VideoJob :=
  {| file := file j; outputName := outputName j; progress := progress j;
     status := s; error := error j; downloadUrl := downloadUrl j |}.

Definition set_progress (p : Z) (j : VideoJob) : VideoJob :=
  {| file := file j; outputName := outputName j; progress := p;
     status := status j; error := error j; downloadUrl := downloadUrl j |}.

Definition set_error (e : string) (j : VideoJob) : VideoJob :=
  {| file := file j; outputName := outputName j; progress := progress j;
     status := status j; error := Some e; downloadUrl := downloadUrl j |}.

Definition set_downloadUrl (u : ObjectURL) (j : VideoJob) : VideoJob :=
  {| file := file j; outputName := outputName j; progress := progress j;
     status := status j; error := error j; downloadUrl := Some u |}.

Definition set_outputName (n : string) (j : VideoJob) : VideoJob :=
  {| file := file j; outputName := n; progress := progress j;
     status := status j; error := error j; downloadUrl := downloadUrl j |}.

(** [[^/.]+$]: a non-empty run without slash or dot, up to the end. *)
Fixpoint extension_chars (s : string) : bool :=
  match s with
  | EmptyString => true
  | String c rest =>
      negb (Ascii.eqb c "/") && negb (Ascii.eqb c ".") && extension_chars rest
  end.

Definition is_extension (s : string) : bool :=
  match s with
  | EmptyString => false
  | _ => extension_chars s
  end.

(** [s.replace(/\.[^/.]+$/, "")]: cut at the leftmost dot that is followed by
    an extension. *)
Fixpoint remove_extension (s : string) : string :=
  match s with
  | EmptyString => EmptyString
  | String c rest =>
      if Ascii.eqb c "." && is_extension rest then EmptyString
      else String c (remove_extension rest)
  end.

Definition getOutputName (f : File) (fmt : Format) : string :=
  let base := remove_extension (name f) in
  base ++ "." ++ Format_string fmt.

(** The job list built from a selection ([onFilesSelected]). *)
Definition starts_with (p s : string) : bool := String.prefix p s.

Definition onFilesSelected (fmt : Format) (files : list File) : list VideoJob :=
  map (fun f => {| file := f; outputName := getOutputName f fmt; progress := 0;
                   status := Pending; error := None; downloadUrl := None |})
      (filter (fun f => starts_with "video/" (type f) = true) files).

(** ** Engine handle manager ([lib/ffmpeg.ts]) *)

(** A reference to an engine instance: its rank in the store of instances. *)
Definition Handle := nat.

Inductive PromiseState :=
| InFlight (h : Handle)        (* [load()] is still running for instance [h] *)
| Fulfilled (h : Handle)
| Rejected (e : JsValue).

(** What a call of [getFFmpeg] gives its caller to await. *)
Inductive Awaitable :=
| Resolved (h : Handle)
| PromiseRef (p : nat).

Section EngineHandleManager.
Context {Callback : Type}.

(** An engine instance, as far as this program sees it: the progress
    listeners registered with [on("progress", _)], oldest first. *)
Record FFmpeg := { listeners : list Callback }.

(** The two module variables, and the instances and promises that
    [load()] has created. *)
Record Manager := {
  instances : list FFmpeg;
  promises : list PromiseState;
  ffmpegSingleton : option Handle;
  loadingPromise : option nat;
}.

Definition initial_manager : Manager :=
  {| instances := []; promises := []; ffmpegSingleton := None; loadingPromise := None |}.

Definition getFFmpeg (onProgress : option Callback) (m : Manager) : Awaitable * Manager :=
  match ffmpegSingleton m with
  | Some h => (Resolved h, m)
  | None =>
      match loadingPromise m with
      | Some p => (PromiseRef p, m)
      | None =>
          (* load(): runs up to its first await *)
          let ffmpeg := length (instances m) in
          let fresh :=
            match onProgress with
            | Some cb => {| listeners := [cb] |}
            | None => {| listeners := [] |}
            end in
          let p := length (promises m) in
          (PromiseRef p,
           {| instances := instances m ++ [fresh];
              promises := promises m ++ [InFlight ffmpeg];
              ffmpegSingleton := None;
              loadingPromise := Some p |})
      end
  end.

(** The rest of [load()]: fetching and linking the runtime components ends,
    with success or with a thrown value. *)
Definition load_settles (p : nat) (r : result unit) (m : Manager) : Manager :=
  match promises m !! p with
  | Some (InFlight h) =>
      match r with
      | inr _ =>
          {| instances := instances m;
             promises := <[p := Fulfilled h]> (promises m);
             ffmpegSingleton := Some h;
             loadingPromise := loadingPromise m |}
      | inl e =>
          {| instances := instances m;
             promises := <[p := Rejected e]> (promises m);
             ffmpegSingleton := ffmpegSingleton m;
             loadingPromise := loadingPromise m |}
      end
  | _ => m
  end.

(** What an awaitable has settled to, if it has. *)
Definition outcome (a : Awaitable) (m : Manager) : option (result Handle) :=
  match a with
  | Resolved h => Some (inr h)
  | PromiseRef p =>
      match promises m !! p with
      | Some (Fulfilled h) => Some (inr h)
      | Some (Rejected e) => Some (inl e)
      | _ => None
      end
  end.

(** [ffmpeg.on("progress", cb)] *)
Definition add_listener (h : Handle) (cb : Callback) (m : Manager) : Manager :=
  {| instances := alter (fun f => {| listeners := listeners f ++ [cb] |}) h (instances m);
     promises := promises m;
     ffmpegSingleton := ffmpegSingleton m;
     loadingPromise := loadingPromise m |}.

Definition listeners_of (h : Handle) (m : Manager) : list Callback :=
  match instances m !! h with
  | Some f => listeners f
  | None => []
  end.

(** Every listener of every instance. *)
Definition all_listeners (m : Manager) : list Callback :=
  flat_map listeners (instances m).

(** A history of the module: calls of [getFFmpeg] and ends of loads. *)
Inductive Event :=
| Acquire (onProgress : option Callback)
| LoadSettles (p : nat) (r : result unit).

Definition step (ev : Event) (m : Manager) : list Awaitable * Manager :=
  match ev with
  | Acquire cb => let '(a, m') := getFFmpeg cb m in ([a], m')
  | LoadSettles p r => ([], load_settles p r m)
  end.

(** Runs a history; the awaitables handed out, in call order. *)
Fixpoint run (evs : list Event) (m : Manager) : list Awaitable * Manager :=
  match evs with
  | [] => ([], m)
  | ev :: rest =>
      let '(out, m') := step ev m in
      let '(outs, m'') := run rest m' in
      (out ++ outs, m'')
  end.

(** How many times [load()] has been started. *)
Definition initializations (m : Manager) : nat := length (promises m).

Definition first_acquire (evs : list Event) : option (option Callback) :=
  head (flat_map (fun ev => match ev with Acquire cb => [cb] | _ => [] end) evs).

(** The states that the module goes through. *)
Inductive Phase :=
| Idle
| Loading
| Ready
| Failed (e : JsValue).

Definition in_phase (ph : Phase) (m : Manager) : Prop :=
  match ph with
  | Idle => m = initial_manager
  | Loading => exists f, m = Build_Manager [f] [InFlight 0] None (Some 0)
  | Ready => exists f, m = Build_Manager [f] [Fulfilled 0] (Some 0) (Some 0)
  | Failed e => exists f, m = Build_Manager [f] [Rejected e] None (Some 0)
  end.

(** The phases that follow a phase. *)
Definition follows (ph ph' : Phase) : Prop :=
  match ph with
  | Idle => ph' = Idle \/ ph' = Loading
  | Loading => ph' = Loading \/ ph' = Ready \/ exists e, ph' = Failed e
  | Ready => ph' = Ready
  | Failed e => ph' = Failed e
  end.

(** How the load ended, if it has: the first completion of the one promise
    that comes after the first call ([started]: a call was made before). *)
Fixpoint load_result_from (started : bool) (evs : list Event) : option (result unit) :=
  match evs with
  | [] => None
  | Acquire _ :: rest => load_result_from true rest
  | LoadSettles p r :: rest =>
      if started && (p =? 0)%nat then Some r else load_result_from started rest
  end.

Definition load_result (evs : list Event) : option (result unit) :=
  load_result_from false evs.

(** The phase that a history leads to. *)
Definition phase_of (evs : list Event) : Phase :=
  match load_result evs with
  | Some (inr _) => Ready
  | Some (inl e) => Failed e
  | None =>
      match first_acquire evs with
      | Some _ => Loading
      | None => Idle
      end
  end.

End EngineHandleManager.

Arguments FFmpeg : clear implicits.
Arguments Manager : clear implicits.
Arguments Event : clear implicits.

(** ** The world of the page *)

(** The closures that the page registers as progress listeners: the one
    passed to [getFFmpeg] ([(ratio) => {}]) and the one of job [i], which
    captures the job object [updated[i]] and the array [updated] of its
    run.  The index [i] stands for that object, and [jobs] for that array,
    as long as the job list is the one of the run that registered the
    listener: a run copies the array and shares the objects, so runs over
    one selection agree on both.  After a new selection a listener of an
    earlier run writes into the objects of the old list and notifies the
    old list; a world with such a listener is outside this model: the
    statement on the notifications of a run excludes it by a hypothesis,
    and the scenarios start from a fresh page. *)
Inductive Handler :=
| OnAcquire
| OnJob (i : nat).

(** Calls received by the engine instance. *)
Inductive EngineCall :=
| writeFile (path : string) (data : bytes)
| on_progress (cb : Handler)
| exec (args : list string)
| readFile (path : string)
| deleteFile (path : string).

Record World := {
  manager : Manager Handler;
  jobs : list VideoJob;                 (* the job objects; [jobs] and [updated] hold the same ones *)
  isProcessing : bool;
  notifications : list (list VideoJob); (* arguments of [setJobs], oldest first *)
  engine_calls : list EngineCall;       (* oldest first *)
  object_urls : list (option Blob);     (* those made by the page and the exporter; [None]: revoked *)
  downloads : list (string * option Blob); (* clicks on a download anchor *)
}.

Definition with_manager (f : Manager Handler -> Manager Handler) (w : World) : World :=
  {| manager := f (manager w); jobs := jobs w; isProcessing := isProcessing w;
     notifications := notifications w; engine_calls := engine_calls w;
     object_urls := object_urls w; downloads := downloads w |}.

Definition with_jobs (f : list VideoJob -> list VideoJob) (w : World) : World :=
  {| manager := manager w; jobs := f (jobs w); isProcessing := isProcessing w;
     notifications := notifications w; engine_calls := engine_calls w;
     object_urls := object_urls w; downloads := downloads w |}.

Definition with_isProcessing (b : bool) (w : World) : World :=
  {| manager := manager w; jobs := jobs w; isProcessing := b;
     notifications := notifications w; engine_calls := engine_calls w;
     object_urls := object_urls w; downloads := downloads w |}.

Definition with_notifications (f : list (list VideoJob) -> list (list VideoJob)) (w : World) : World :=
  {| manager := manager w; jobs := jobs w; isProcessing := isProcessing w;
     notifications := f (notifications w); engine_calls := engine_calls w;
     object_urls := object_urls w; downloads := downloads w |}.

Definition with_engine_calls (f : list EngineCall -> list EngineCall) (w : World) : World :=
  {| manager := manager w; jobs := jobs w; isProcessing := isProcessing w;
     notifications := notifications w; engine_calls := f (engine_calls w);
     object_urls := object_urls w; downloads := downloads w |}.

Definition with_object_urls (f : list (option Blob) -> list (option Blob)) (w : World) : World :=
  {| manager := manager w; jobs := jobs w; isProcessing := isProcessing w;
     notifications := notifications w; engine_calls := engine_calls w;
     object_urls := f (object_urls w); downloads := downloads w |}.

Definition with_downloads (f : list (string * option Blob) -> list (string * option Blob)) (w : World) : World :=
  {| manager := manager w; jobs := jobs w; isProcessing := isProcessing w;
     notifications := notifications w; engine_calls := engine_calls w;
     object_urls := object_urls w; downloads := f (downloads w) |}.

(** *** Asynchronous code: state and exceptions *)

Definition M (A : Type) : Type := World -> result A * World.

Definition ret {A} (a : A) : M A := fun w => (inr a, w).

Definition throw {A} (e : JsValue) : M A := fun w => (inl e, w).

Definition bind {A B} (m : M A) (k : A -> M B) : M B :=
  fun w =>
    match m w with
    | (inr a, w') => k a w'
    | (inl e, w') => (inl e, w')
    end.

(** [try { body } catch (err) { handler(err) }] *)
Definition try_catch {A} (body : M A) (handler : JsValue -> M A) : M A :=
  fun w =>
    match body w with
    | (inr a, w') => (inr a, w')
    | (inl e, w') => handler e w'
    end.

(** A statement that cannot throw. *)
Definition act (f : World -> World) : M unit := fun w => (inr tt, f w).

(** An awaited call whose outcome the environment decides. *)
Definition settle {A} (r : result A) : M A := fun w => (r, w).

Declare Scope js_scope.
Delimit Scope js_scope with js.
Notation "'let!' x := m 'in' k" := (bind m (fun x => k))
  (at level 10, x name, m at level 100, k at level 200) : js_scope.
Notation "m ;; k" := (bind m (fun _ => k))
  (at level 100, k at level 200, right associativity) : js_scope.

(** [for (const x of xs) body(x)] *)
Fixpoint for_each {A} (xs : list A) (body : A -> M unit) : M unit :=
  match xs with
  | [] => ret tt
  | x :: rest => bind (body x) (fun _ => for_each rest body)
  end.

(** *** Primitive statements *)

(** [setJobs([...updated])] *)
Definition setJobs : M unit :=
  act (fun w => with_notifications (fun ns => ns ++ [jobs w]) w).

Definition setIsProcessing (b : bool) : M unit := act (with_isProcessing b).

(** An assignment to a field of the job object [updated[i]]. *)
Definition update_job (i : nat) (f : VideoJob -> VideoJob) : M unit :=
  act (with_jobs (alter f i)).

Definition log_call (c : EngineCall) : M unit :=
  act (with_engine_calls (fun cs => cs ++ [c])).

(** [URL.createObjectURL(blob)] *)
Definition createObjectURL (b : Blob) : M ObjectURL :=
  fun w => (inr (length (object_urls w)), with_object_urls (fun us => us ++ [Some b]) w).

(** [URL.revokeObjectURL(url)] *)
Definition revokeObjectURL (u : ObjectURL) : M unit :=
  act (with_object_urls (<[u := None]>)).

(** [(await fetch(url)).blob()] on an object URL. *)
Definition fetch_blob (u : ObjectURL) : M Blob :=
  fun w =>
    match object_urls w !! u with
    | Some (Some b) => (inr b, w)
    | _ => (inl (JsError "TypeError" "Failed to fetch"), w)
    end.

(** *** The progress listeners *)

(** The integer percentage that the listener of a job records.  The
    product is exact here and rounded to binary64 in the source: the two
    agree where the product is a binary64 value, and on bounds and order
    everywhere. *)
Definition progress_percent (progress : number) : Z :=
  Math_min 100 (Math_round (progress * 100)%Q).

Definition run_handler (cb : Handler) (progress : number) : M unit :=
  match cb with
  | OnAcquire => ret tt
  | OnJob i =>
      bind (update_job i (set_progress (progress_percent progress)))
           (fun _ => setJobs)
  end.

(** One progress event: the engine calls each listener, oldest first. *)
Definition emit_progress (ffmpeg : Handle) (progress : number) : M unit :=
  fun w => for_each (listeners_of ffmpeg (manager w))
                    (fun cb => run_handler cb progress) w.

(** *** What the environment answers while one job is processed *)

Record JobEnv := {
  env_writeFile : result unit;
  env_progress : list number;    (* the progress events of [exec], in order *)
  env_exec : result unit;
  env_readFile : result bytes;
  env_deleteInput : result unit;
  env_deleteOutput : result unit;
}.

Definition ffmpeg_writeFile (e : JobEnv) (path : string) (data : bytes) : M unit :=
  bind (log_call (writeFile path data)) (fun _ => settle (env_writeFile e)).

Definition ffmpeg_on (ffmpeg : Handle) (cb : Handler) : M unit :=
  bind (log_call (on_progress cb))
       (fun _ => act (with_manager (add_listener ffmpeg cb))).

Definition ffmpeg_exec (ffmpeg : Handle) (e : JobEnv) (args : list string) : M unit :=
  bind (log_call (exec args))
       (fun _ => bind (for_each (env_progress e) (emit_progress ffmpeg))
                      (fun _ => settle (env_exec e))).

Definition ffmpeg_readFile (e : JobEnv) (path : string) : M bytes :=
  bind (log_call (readFile path)) (fun _ => settle (env_readFile e)).

Definition ffmpeg_deleteFile (r : result unit) (path : string) : M unit :=
  bind (log_call (deleteFile path)) (fun _ => settle r).

(** [await getFFmpeg(cb)]: the call, then the wait for what it returned; a
    load still in flight ends with [load].  The object URLs that [load()]
    makes for the runtime components of the engine ([toBlobURL], a library
    function) are not recorded: [object_urls] holds those of the page and of
    the exporter. *)
Definition await_getFFmpeg (cb : option Handler) (load : result unit) : M Handle :=
  fun w =>
    let '(a, m) := getFFmpeg cb (manager w) in
    let m :=
      match a with
      | PromiseRef p => load_settles p load m
      | Resolved _ => m
      end in
    let w := with_manager (fun _ => m) w in
    match outcome a m with
    | Some r => (r, w)
    | None => (inl JsUndefined, w)   (* no such reference is ever handed out *)
    end.

(** ** Job orchestrator ([handleProcess]) *)

Section Orchestrator.
Context `{NumberToString}.
Open Scope js_scope.

Definition mime_of (fmt : Format) : string :=
  if Format_eqb fmt mp4 then "video/mp4" else "video/webm".

(** One turn of the loop, for the job object [updated[i]]. *)
Definition process_job (ffmpeg : Handle) (options : Options) (e : JobEnv) (i : nat) : M unit :=
  fun w =>
    match jobs w !! i with
    | None => (inl (JsError "TypeError" "Cannot set properties of undefined"), w)
    | Some job =>
        (update_job i (set_status Processing) ;;
         update_job i (set_progress 0) ;;
         setJobs ;;
         let inputName := name (file job) in
         let outputName := getOutputName (file job) (format options) in
         try_catch
           (let! data := settle (arrayBuffer (file job)) in
            ffmpeg_writeFile e inputName data ;;
            (* Attach progress handler for this run *)
            ffmpeg_on ffmpeg (OnJob i) ;;
            let args := buildArgs inputName outputName options in
            ffmpeg_exec ffmpeg e args ;;
            let! outData := ffmpeg_readFile e outputName in
            let blob := DataBlob outData (mime_of (format options)) in
            let! url := createObjectURL blob in
            update_job i (set_downloadUrl url) ;;
            update_job i (set_outputName outputName) ;;
            update_job i (set_status Done) ;;
            update_job i (set_progress 100) ;;
            (* cleanup input to free memory *)
            try_catch (ffmpeg_deleteFile (env_deleteInput e) inputName) (fun _ => ret tt) ;;
            try_catch (ffmpeg_deleteFile (env_deleteOutput e) outputName) (fun _ => ret tt))
           (fun err =>
              update_job i (set_status Error) ;;
              update_job i (set_error (String_value (js_or (opt_message err) err)))) ;;
         setJobs) w
    end.

(** [load]: how a load in flight ends; [env i]: what the environment
    answers during the turn of job [i]. *)
Definition handleProcess (load : result unit) (env : nat -> JobEnv) (options : Options) : M unit :=
  fun w =>
    if (length (jobs w) =? 0)%nat then (inr tt, w)
    else
      (setIsProcessing true ;;
       let! ffmpeg := await_getFFmpeg (Some OnAcquire) load in
       (fun w' =>
          for_each (seq 0 (length (jobs w')))
                   (fun i => process_job ffmpeg options (env i) i) w') ;;
       setIsProcessing false) w.

End Orchestrator.

(** ** Archive exporter ([utils/zip]) and its caller ([handleZip]) *)

Fixpoint has_char (c : ascii) (s : string) : bool :=
  match s with
  | EmptyString => false
  | String c' rest => Ascii.eqb c' c || has_char c rest
  end.

(** An entry name without directory part and with an extension, as
    [getOutputName] makes it from the name of a file of the browser. *)
Definition plain_entry_name (n : string) : bool :=
  negb (has_char "/" n) && has_char "." n.

(** [zip.file(name, blob)] of the library JSZip, which is not part of the
    sources: what is assumed of it, for an entry name without directory part
    that is not a number (see [plain_entry_name]): the entry is added at
    the end, or replaces in place the entry of that name.  For a name with
    a slash JSZip adds entries for the folders too, and it lists numeric
    names first; neither is modelled. *)
Definition zip_file (entry_name : string) (b : Blob) (zip : list (string * Blob)) : list (string * Blob) :=
  if existsb (fun e => fst e =? entry_name) zip
  then map (fun e => if fst e =? entry_name then (entry_name, b) else e) zip
  else zip ++ [(entry_name, b)].

(** [a.click()] on an anchor with [href = url] and [download = fileName]. *)
Definition click_download (url : ObjectURL) (fileName : string) : M unit :=
  act (fun w => with_downloads
                  (fun ds => ds ++ [(fileName, mjoin (object_urls w !! url))]) w).

Open Scope js_scope.

Definition zipBlobsAsZipFile (files : list (string * Blob)) (zipName : string) : M unit :=
  let zip := fold_left (fun z f => zip_file (fst f) (snd f) z) files [] in
  let content := ZipBlob zip in
  let! url := createObjectURL content in
  click_download url zipName ;;
  revokeObjectURL url.

Definition is_ready (j : VideoJob) : bool :=
  Status_eqb (status j) Done &&
  match downloadUrl j with Some _ => true | None => false end.

(** [Promise.all(xs.map(f))] *)
Fixpoint promise_all {A B} (f : A -> M B) (xs : list A) : M (list B) :=
  match xs with
  | [] => ret []
  | x :: rest =>
      let! b := f x in
      let! bs := promise_all f rest in
      ret (b :: bs)
  end.

Definition handleZip : M unit :=
  fun w =>
    let ready := List.filter is_ready (jobs w) in
    if (length ready =? 0)%nat then (inr tt, w)
    else
      (let! blobs :=
         promise_all
           (fun j =>
              match downloadUrl j with
              | Some u => let! blob := fetch_blob u in ret (outputName j, blob)
              | None => throw JsUndefined
              end) ready in
       zipBlobsAsZipFile blobs "processed-videos.zip") w.

Close Scope js_scope.

(** [allDone] of the page: the list is not empty and every job is Done. *)
Definition allDone (js : list VideoJob) : bool :=
  (0 <? length js)%nat && forallb (fun j => Status_eqb (status j) Done) js.

(** ** Vocabulary of the orchestrator's properties *)

(** The message that the [catch] block records: [String(err?.message || err)]. *)
Definition error_text (err : JsValue) : string :=
  String_value (js_or (opt_message err) err).

(** The first awaited call of a job's turn that throws, if any:
    [arrayBuffer], [writeFile], [exec], [readFile], in this order. *)
Definition job_failure (f : File) (e : JobEnv) : option JsValue :=
  match arrayBuffer f with
  | inl err => Some err
  | inr _ =>
      match env_writeFile e with
      | inl err => Some err
      | inr _ =>
          match env_exec e with
          | inl err => Some err
          | inr _ =>
              match env_readFile e with
              | inl err => Some err
              | inr _ => None
              end
          end
      end
  end.

(** A job is well-formed in an environment when none of these calls throws. *)
Definition well_formed (f : File) (e : JobEnv) : Prop := job_failure f e = None.

(** A job with its progress put aside. *)
Definition erase_progress (j : VideoJob) : VideoJob := set_progress 0 j.

Section OrchestratorVocabulary.
Context `{NumberToString}.

(** The engine calls of the turn of job [i]. *)
Definition job_calls (options : Options) (f : File) (e : JobEnv) (i : nat) : list EngineCall :=
  let inputName := name f in
  let outputName := getOutputName f (format options) in
  match arrayBuffer f with
  | inl _ => []
  | inr data =>
      writeFile inputName data ::
      match env_writeFile e with
      | inl _ => []
      | inr _ =>
          on_progress (OnJob i) ::
          exec (buildArgs inputName outputName options) ::
          match env_exec e with
          | inl _ => []
          | inr _ =>
              readFile outputName ::
              match env_readFile e with
              | inl _ => []
              | inr _ => [deleteFile inputName; deleteFile outputName]
              end
          end
      end
  end.

(** The blob that a turn without failure stores. *)
Definition job_blob (options : Options) (e : JobEnv) : list (option Blob) :=
  match env_readFile e with
  | inr outData => [Some (DataBlob outData (mime_of (format options)))]
  | inl _ => []
  end.

End OrchestratorVocabulary.

(** The job after its turn, progress aside; [url] is the object URL that
    the turn creates when nothing fails. *)
Definition settled_job (options : Options) (e : JobEnv) (url : ObjectURL) (j : VideoJob) : VideoJob :=
  match job_failure (file j) e with
  | Some err => set_error (error_text err) (set_status Error (erase_progress j))
  | None =>
      set_status Done
        (set_outputName (getOutputName (file j) (format options))
           (set_downloadUrl url (erase_progress j)))
  end.

(** The worlds that differ from [w] by the progress of jobs and by further
    notifications only. *)
Definition progress_only (w w' : World) : Prop :=
  manager w' = manager w /\
  erase_progress <$> jobs w' = erase_progress <$> jobs w /\
  isProcessing w' = isProcessing w /\
  engine_calls w' = engine_calls w /\
  object_urls w' = object_urls w /\
  downloads w' = downloads w /\
  exists more, notifications w' = notifications w ++ more.

(** *** Statuses over the notifications of a run *)

Definition terminal (s : Status) : bool :=
  match s with
  | Done | Error => true
  | Pending | Processing => false
  end.

Definition statuses (js : list VideoJob) : list Status := status <$> js.

(** The worlds that follow [w] through progress events: every notification
    sent on the way, and the job list in the end, has the statuses of [w]. *)
Definition status_quiet (w w' : World) : Prop :=
  statuses (jobs w') = statuses (jobs w) /\
  exists more, notifications w' = notifications w ++ more /\
               Forall (fun s => statuses s = statuses (jobs w)) more.

(** From one notification to the next, a job that is Done or Error keeps
    its status. *)
Definition keeps_terminal (s s' : list Status) : Prop :=
  forall k st, s !! k = Some st -> terminal st = true -> s' !! k = Some st.

(** Each element of [l], starting from [x], is related to the next. *)
Fixpoint chain {A} (R : A -> A -> Prop) (x : A) (l : list A) : Prop :=
  match l with
  | [] => True
  | y :: l' => R x y /\ chain R y l'
  end.

(** ** The trim window in the words of the design document

    Rule 4 of the argument builder asks that trim-end be set and greater
    than trim-start, and names no condition on trim-start; a trim-start
    that is not set trims nothing at the start (rule 2), so that the window
    then opens at 0. *)

Definition spec_trim_start (opts : Options) : number :=
  match trimStartSec opts with
  | Some ts => ts
  | None => 0%Q
  end.

Definition spec_duration_flags `{NumberToString} (opts : Options) : list string :=
  match trimEndSec opts with
  | Some te =>
      if number_gt te (spec_trim_start opts)
      then [String_number (te - spec_trim_start opts)%Q]
      else []
  | None => []
  end.

(** ** Example worlds

    The scenario of the design document: [a.mov] and the corrupt [b.mov],
    converted to mp4 with a 720p cap and the trim window 2..8. *)

Definition video (file_name : string) (content : bytes) : File :=
  {| name := file_name; type := "video/quicktime"; arrayBuffer := inr content |}.

Definition example_options : Options :=
  {| format := mp4; resolution := res720p; bitrate := auto;
     trimStartSec := Some (2 # 1)%Q; trimEndSec := Some (8 # 1)%Q |}.

Definition fresh_world (selection : list File) : World :=
  {| manager := initial_manager;
     jobs := onFilesSelected mp4 selection;
     isProcessing := false;
     notifications := [];
     engine_calls := [];
     object_urls := [];
     downloads := [] |}.

(** An environment in which the engine does its work and reports the given
    progress values. *)
Definition engine_ok (events : list number) (output : bytes) : JobEnv :=
  {| env_writeFile := inr tt; env_progress := events; env_exec := inr tt;
     env_readFile := inr output; env_deleteInput := inr tt; env_deleteOutput := inr tt |}.

(** An environment in which [exec] throws [err] after the given progress
    values. *)
Definition engine_exec_fails (events : list number) (err : JsValue) : JobEnv :=
  {| env_writeFile := inr tt; env_progress := events; env_exec := inl err;
     env_readFile := inr []; env_deleteInput := inr tt; env_deleteOutput := inr tt |}.

Definition invalid_data : JsValue :=
  JsError "Error" "Invalid data found when processing input".

Definition two_files : World :=
  fresh_world [video "a.mov" [Byte.x00]; video "b.mov" [Byte.xff]].

(** The first file is converted, the second makes [exec] throw [err]. *)
Definition second_fails (err : JsValue) (i : nat) : JobEnv :=
  match i with
  | 1%nat => engine_exec_fails [(1 # 4)%Q] err
  | _ => engine_ok [(1 # 2)%Q; 1%Q] [Byte.x01]
  end.

(** Both files are converted; the progress values are those of the list. *)
Definition both_converted (events : list number) (i : nat) : JobEnv :=
  engine_ok events [Byte.x01].

(** The first file makes [exec] throw [err], the second is converted. *)
Definition first_fails (err : JsValue) (i : nat) : JobEnv :=
  match i with
  | 0%nat => engine_exec_fails [(1 # 4)%Q] err
  | _ => engine_ok [(1 # 2)%Q; 1%Q] [Byte.x01]
  end.

(** Both files are converted; the engine reports progress for the first
    one only. *)
Definition only_first_reports (i : nat) : JobEnv :=
  match i with
  | 0%nat => engine_ok [(1 # 2)%Q; 1%Q] [Byte.x01]
  | _ => engine_ok [] [Byte.x01]
  end.

(** The page after a run in which [a.mov] was converted and [b.mov]
    failed. *)
Definition after_second_fails : World :=
  snd (@handleProcess decimal_string (inr tt) (second_fails invalid_data)
         example_options two_files).

(** The statuses and progress values of a job list. *)
Definition status_and_progress (js : list VideoJob) : list (Status * Z) :=
  map (fun j => (status j, progress j)) js.

(** ** Vocabulary of the further properties *)

(** The scale filter of a resolution cap of the given width. *)
Definition scale_filter (cap : string) : string :=
  ("scale='min(" ++ cap ++ ",iw)':'-2':force_original_aspect_ratio=decrease")%string.

(** The turn of a job gets as far as [on] and [exec]: the file can be read
    and [writeFile] succeeds. *)
Definition reaches_exec (f : File) (e : JobEnv) : bool :=
  match arrayBuffer f, env_writeFile e with
  | inr _, inr _ => true
  | _, _ => false
  end.

(** The file of the job object [updated[i]]. *)
Definition file_of (w : World) (i : nat) : File :=
  match jobs w !! i with
  | Some j => file j
  | None => {| name := ""; type := ""; arrayBuffer := inl JsUndefined |}
  end.

(** Two environments that answer alike, the two deletions aside. *)
Definition same_but_deletions (e e' : JobEnv) : Prop :=
  env_writeFile e = env_writeFile e' /\
  env_progress e = env_progress e' /\
  env_exec e = env_exec e' /\
  env_readFile e = env_readFile e'.

(** The environment [e] with other answers to the two deletions. *)
Definition with_deletions (input_deletion output_deletion : result unit) (e : JobEnv) : JobEnv :=
  {| env_writeFile := env_writeFile e; env_progress := env_progress e;
     env_exec := env_exec e; env_readFile := env_readFile e;
     env_deleteInput := input_deletion; env_deleteOutput := output_deletion |}.

(** The listeners that a run over [n] jobs registers: one per job whose turn
    gets as far as [on], in job order. *)
Definition registrations (env : nat -> JobEnv) (w : World) (a n : nat) : list Handler :=
  flat_map (fun i => if reaches_exec (file_of w i) (env i) then [OnJob i] else [])
           (seq a n).

(** The object URLs that a run over [n] jobs creates: one per job whose
    turn does not fail, in job order. *)
Definition created_urls `{NumberToString} (options : Options) (env : nat -> JobEnv)
    (w : World) (a n : nat) : list (option Blob) :=
  flat_map (fun i => match job_failure (file_of w i) (env i) with
                     | None => job_blob options (env i)
                     | Some _ => []
                     end)
           (seq a n).

(** The entries of the archive that [zipBlobsAsZipFile] builds from
    [files]: the loop [for (const f of files) zip.file(f.name, f.blob)]. *)
Definition archive (files : list (string * Blob)) : list (string * Blob) :=
  fold_left (fun z f => zip_file (fst f) (snd f) z) files [].

(** The blob of the last file of [files] called [n]. *)
Fixpoint last_named (n : string) (files : list (string * Blob)) : option Blob :=
  match files with
  | [] => None
  | f :: rest =>
      match last_named n rest with
      | Some b => Some b
      | None => if fst f =? n then Some (snd f) else None
      end
  end%string.

(** The blob behind the download URL of a job. *)
Definition blob_at (w : World) (j : VideoJob) : option Blob :=
  match downloadUrl j with
  | Some u => mjoin (object_urls w !! u)
  | None => None
  end.

(** The jobs that [handleZip] selects, as entry name and blob. *)
Definition ready_outputs (w : World) : list (string * option Blob) :=
  map (fun j => (outputName j, blob_at w j)) (List.filter is_ready (jobs w)).

(** The outputs of a run over the jobs [js], the first of which has index
    [a]: entry name and blob of each job whose turn does not fail. *)
Fixpoint converted `{NumberToString} (options : Options) (env : nat -> JobEnv) (a : nat)
    (js : list VideoJob) : list (string * Blob) :=
  match js with
  | [] => []
  | j :: rest =>
      match job_failure (file j) (env a), env_readFile (env a) with
      | None, inr out =>
          [(getOutputName (file j) (format options),
            DataBlob out (mime_of (format options)))]
      | _, _ => []
      end ++ converted options env (S a) rest
  end.

(** * Properties *)

(** ** Argument builder *)

Section ArgumentBuilderFacts.
Context `{NumberToString}.

Lemma read_args_switch rest :
  read_args ("-y" :: rest) = Switch "-y" :: read_args rest.
Proof. reflexivity. Qed.

Lemma read_args_flag a v rest :
  (a =? "-y") = false -> takes_value a = true ->
  read_args (a :: v :: rest) = Flag a v :: read_args rest.
Proof. intros Hy Ht. cbn [read_args]. now rewrite Hy, Ht. Qed.

Lemma flag_values_cons flag it items :
  flag_values flag (it :: items) =
  match it with
  | Flag f v => if f =? flag then [v] else []
  | _ => []
  end ++ flag_values flag items.
Proof. reflexivity. Qed.

(** The last element alone never reads as a flag with a value. *)
Lemma flag_values_last flag o : flag_values flag (read_args [o]) = [].
Proof.
  cbn [read_args]. destruct (o =? "-y"); [reflexivity|].
  destruct (takes_value o); reflexivity.
Qed.

Lemma number_gt_lt a b : number_gt a b = true <-> (b < a)%Q.
Proof.
  unfold number_gt. rewrite negb_true_iff.
  destruct (Qle_bool a b) eqn:E.
  - apply Qle_bool_iff in E. split; [discriminate|].
    intros Hlt. exfalso. exact (Qlt_not_le _ _ Hlt E).
  - split; [intros _|reflexivity].
    apply Qnot_le_lt. intros Hle. apply Qle_bool_iff in Hle. congruence.
Qed.

End ArgumentBuilderFacts.

(** Reads the argument sequence of [buildArgs] to the end and evaluates the
    values of one flag. *)
Ltac read_built_args :=
  unfold buildArgs; cbn [trimStartSec trimEndSec format bitrate resolution Format_eqb app];
  repeat match goal with
         | |- context [if number_gt ?a ?b then _ else _] => destruct (number_gt a b) eqn:?
         end;
  cbn [app Bitrate_string];
  rewrite read_args_switch;
  repeat (rewrite read_args_flag by reflexivity);
  repeat (rewrite flag_values_cons; cbn [String.eqb Ascii.eqb Bool.eqb app]);
  rewrite ?flag_values_last.

Section ArgumentBuilderClaims.
Context `{NumberToString}.

(** What [buildArgs] gives to the flag [-t]. *)
Lemma duration_flags_eq i o opts :
  duration_flags i o opts =
  match trimEndSec opts, trimStartSec opts with
  | Some te, Some ts => if number_gt te ts then [String_number (te - ts)%Q] else []
  | _, _ => []
  end.
Proof.
  unfold duration_flags.
  destruct opts as [[] [] [] [ts|] [te|]]; read_built_args;
    try reflexivity; congruence.
Qed.

(** C6, as amended.  The argument sequence holds a duration-limit flag
    ([-t]) with value trim-end - trim-start exactly when trim-start and
    trim-end are both set and trim-end is greater than trim-start; in every
    other case (one of them unset, or trim-end <= trim-start) no such flag
    appears.  There is at most one such flag, and [buildArgs] is total: it
    raises no error. *)
Theorem buildArgs_duration_flag i o opts :
  (forall v, In v (duration_flags i o opts) <->
             exists ts te, trimStartSec opts = Some ts /\ trimEndSec opts = Some te /\
                           (ts < te)%Q /\ v = String_number (te - ts)%Q) /\
  (length (duration_flags i o opts) <= 1)%nat /\
  ((trimStartSec opts = None \/ trimEndSec opts = None \/
    (exists ts te, trimStartSec opts = Some ts /\ trimEndSec opts = Some te /\ (te <= ts)%Q)) ->
   duration_flags i o opts = []).
Proof.
  rewrite duration_flags_eq.
  destruct (trimEndSec opts) as [te|], (trimStartSec opts) as [ts|];
    try (split; [intros v; split; [intros []|intros (? & ? & ? & ? & ? & ?); congruence]
                |split; [cbn; lia|reflexivity]]).
  destruct (number_gt te ts) eqn:E.
  - apply number_gt_lt in E. split; [|split].
    + intros v. split.
      * intros [<-|[]]. exists ts, te. auto.
      * intros (ts' & te' & [= <-] & [= <-] & _ & ->). now left.
    + cbn; lia.
    + intros [?|[?|(ts' & te' & [= <-] & [= <-] & Hle)]]; try discriminate.
      exfalso. exact (Qlt_not_le _ _ E Hle).
  - split; [|split]; [|cbn; lia|reflexivity].
    intros v. split; [intros []|].
    intros (ts' & te' & [= <-] & [= <-] & Hlt & _).
    apply number_gt_lt in Hlt. congruence.
Qed.

(** C7.  For every options value the argument sequence holds exactly one
    video codec flag ([-c:v]) and exactly one audio codec flag ([-c:a]),
    each with the codec of the chosen container: libx264 and aac for mp4,
    libvpx-vp9 and libopus for webm; and there are exactly these two
    containers. *)
Theorem buildArgs_one_codec_pair_per_container i o opts :
  let items := read_args (buildArgs i o opts) in
  match format opts with
  | mp4 => flag_values "-c:v" items = ["libx264"] /\ flag_values "-c:a" items = ["aac"]
  | webm => flag_values "-c:v" items = ["libvpx-vp9"] /\ flag_values "-c:a" items = ["libopus"]
  end /\
  (forall fmt : Format, fmt = mp4 \/ fmt = webm).
Proof.
  cbv zeta. split; [|intros []; auto].
  destruct opts as [[] [] [] [ts|] [te|]]; cbn [format];
    (split; read_built_args; reflexivity).
Qed.

End ArgumentBuilderClaims.

(** C6, as the claim words it: trim-end set and greater than trim-start is
    enough for the flag.  With trim-end 8 and no trim-start the claim asks
    for a duration-limit flag of value 8, and [buildArgs] emits none. *)
Lemma buildArgs_duration_flag_needs_trim_start :
  let opts := {| format := mp4; resolution := source; bitrate := auto;
                 trimStartSec := None; trimEndSec := Some (8 # 1)%Q |} in
  @spec_duration_flags decimal_string opts = ["8"] /\
  @duration_flags decimal_string "a.mov" "a.mp4" opts = [] /\
  ~ (forall (S : NumberToString) i o opts,
        @duration_flags S i o opts = @spec_duration_flags S opts).
Proof.
  cbv zeta. split; [reflexivity|]. split; [reflexivity|].
  intros Hall.
  specialize (Hall decimal_string "a.mov" "a.mp4"
    {| format := mp4; resolution := source; bitrate := auto;
       trimStartSec := None; trimEndSec := Some (8 # 1)%Q |}).
  discriminate Hall.
Qed.

(** ** Engine handle manager *)

Section EngineHandleManagerFacts.
Context {Callback : Type}.
Implicit Types (m : Manager Callback) (evs : list (Event Callback)).

Lemma load_settles_phase ph m p r :
  in_phase ph m ->
  exists ph', in_phase ph' (load_settles p r m) /\ follows ph ph' /\
              instances (load_settles p r m) = instances m.
Proof.
  destruct ph; cbn [in_phase].
  - intros ->. exists Idle. destruct p; cbn; auto.
  - intros [f ->]. destruct p as [|p].
    + destruct r as [e|[]].
      * exists (Failed e). cbn. split; [eexists; reflexivity|]. split; eauto.
      * exists Ready. cbn. split; [eexists; reflexivity|]. split; eauto.
    + exists Loading. cbn. split; [eexists; reflexivity|]. split; eauto.
  - intros [f ->]. exists Ready.
    destruct p as [|p]; cbn; (split; [eexists; reflexivity|]); split; eauto.
  - intros [f ->]. exists (Failed e).
    destruct p as [|p]; cbn; (split; [eexists; reflexivity|]); split; eauto.
Qed.

(** What a call of [getFFmpeg] does in each phase. *)
Lemma getFFmpeg_phase ph m cb :
  in_phase ph m ->
  match ph with
  | Idle =>
      getFFmpeg cb m =
      (PromiseRef 0,
       @Build_Manager Callback
         [{| listeners := match cb with Some c => [c] | None => [] end |}]
         [InFlight 0] None (Some 0))
  | Loading | Failed _ => getFFmpeg cb m = (PromiseRef 0, m)
  | Ready => getFFmpeg cb m = (Resolved 0, m)
  end.
Proof.
  destruct ph; cbn [in_phase].
  - intros ->. destruct cb; reflexivity.
  - intros [f ->]. reflexivity.
  - intros [f ->]. reflexivity.
  - intros [f ->]. reflexivity.
Qed.

Lemma step_phase ph m ev :
  in_phase ph m ->
  exists ph', in_phase ph' (snd (step ev m)) /\ follows ph ph' /\
    (ph <> Idle -> instances (snd (step ev m)) = instances m) /\
    (forall a, In a (fst (step ev m)) ->
               a = PromiseRef 0 \/ (a = Resolved 0 /\ ph = Ready)).
Proof.
  intros Hph. destruct ev as [cb|p r].
  - pose proof (getFFmpeg_phase ph m cb Hph) as Hget.
    cbn [step]. destruct ph; rewrite Hget; cbn [fst snd].
    + exists Loading. split; [eexists; reflexivity|].
      split; [right; reflexivity|]. split; [congruence|].
      intros a [<-|[]]. auto.
    + exists Loading. split; [exact Hph|].
      split; [left; reflexivity|]. split; [reflexivity|].
      intros a [<-|[]]. auto.
    + exists Ready. split; [exact Hph|].
      split; [reflexivity|]. split; [reflexivity|].
      intros a [<-|[]]. auto.
    + exists (Failed e). split; [exact Hph|].
      split; [reflexivity|]. split; [reflexivity|].
      intros a [<-|[]]. auto.
  - cbn [step fst snd].
    destruct (load_settles_phase ph m p r Hph) as (ph' & H1 & H2 & H3).
    exists ph'. repeat split; auto. intros a [].
Qed.

Lemma follows_Ready ph : follows Ready ph -> ph = Ready.
Proof. exact (fun H => H). Qed.

Lemma run_cons ev evs m :
  run (ev :: evs) m =
  (fst (step ev m) ++ fst (run evs (snd (step ev m))),
   snd (run evs (snd (step ev m)))).
Proof.
  cbn [run]. destruct (step ev m) as [out m']. cbn [fst snd].
  destruct (run evs m') as [outs m'']. reflexivity.
Qed.

(** A history keeps the module within its phases, and hands out no
    awaitable but the one promise and, once ready, the one handle. *)
Lemma run_phase evs : forall ph m,
  in_phase ph m ->
  exists ph', in_phase ph' (snd (run evs m)) /\
    (ph = Ready -> ph' = Ready) /\
    (forall e, ph = Failed e -> ph' = Failed e) /\
    (ph <> Idle -> instances (snd (run evs m)) = instances m) /\
    (forall a, In a (fst (run evs m)) ->
               a = PromiseRef 0 \/ (a = Resolved 0 /\ ph' = Ready)).
Proof.
  induction evs as [|ev evs IH]; intros ph m Hph.
  - exists ph. cbn. repeat split; auto. intros a [].
  - rewrite run_cons. cbn [fst snd].
    destruct (step_phase ph m ev Hph) as (ph1 & Hph1 & Hfol & Hinst1 & Hout1).
    destruct (IH ph1 _ Hph1) as (ph' & Hph' & Hready & Hfailed & Hinst & Houts).
    exists ph'. split; [exact Hph'|]. split; [|split; [|split]].
    + intros ->. apply Hready. exact Hfol.
    + intros e ->. apply (Hfailed e). exact Hfol.
    + intros Hne. rewrite Hinst; [auto|].
      intros ->. destruct ph; cbn in Hfol; try congruence.
      destruct Hfol as [?|[?|[? ?]]]; discriminate.
    + intros a Hin. apply in_app_or in Hin. destruct Hin as [Hin|Hin].
      * destruct (Hout1 a Hin) as [?|[? ->]]; [auto|].
        right. split; [assumption|]. apply Hready. exact Hfol.
      * auto.
Qed.

Lemma in_phase_initializations ph m :
  in_phase ph m ->
  initializations m = match ph with Idle => 0 | _ => 1 end.
Proof.
  destruct ph; cbn [in_phase]; [intros ->|intros [f ->]..]; reflexivity.
Qed.

Lemma first_acquire_cons ev evs :
  first_acquire (ev :: evs) =
  match ev with
  | Acquire cb => Some cb
  | LoadSettles _ _ => first_acquire evs
  end.
Proof. destruct ev; reflexivity. Qed.

(** The listeners after a history are those of the first call. *)
Lemma run_listeners evs :
  all_listeners (snd (run evs (@initial_manager Callback))) =
  match first_acquire evs with
  | Some (Some cb) => [cb]
  | _ => []
  end.
Proof.
  induction evs as [|ev evs IH]; [reflexivity|].
  rewrite run_cons, first_acquire_cons. cbn [snd].
  destruct ev as [cb|p r].
  - cbn [step]. rewrite (getFFmpeg_phase Idle initial_manager cb eq_refl).
    cbn [snd].
    destruct (run_phase evs Loading
                (@Build_Manager Callback
                   [{| listeners := match cb with Some c => [c] | None => [] end |}]
                   [InFlight 0] None (Some 0)))
      as (ph' & _ & _ & _ & Hinst & _); [cbn; eauto|].
    unfold all_listeners. rewrite Hinst by discriminate.
    destruct cb; reflexivity.
  - cbn [step snd].
    replace (load_settles p r initial_manager) with (@initial_manager Callback)
      by (destruct p; reflexivity).
    exact IH.
Qed.

Lemma run_idle_or_acquired evs :
  in_phase Idle (snd (run evs (@initial_manager Callback))) <->
  first_acquire evs = None.
Proof.
  induction evs as [|ev evs IH]; [cbn; tauto|].
  rewrite run_cons, first_acquire_cons. cbn [snd].
  destruct ev as [cb|p r].
  - cbn [step]. rewrite (getFFmpeg_phase Idle initial_manager cb eq_refl).
    cbn [snd]. split; [|discriminate].
    intros Hidle.
    destruct (run_phase evs Loading
                (@Build_Manager Callback
                   [{| listeners := match cb with Some c => [c] | None => [] end |}]
                   [InFlight 0] None (Some 0)))
      as (ph' & _ & _ & _ & Hinst & _); [cbn; eauto|].
    cbn [in_phase] in Hidle. rewrite Hidle in Hinst.
    specialize (Hinst ltac:(discriminate)). discriminate Hinst.
  - cbn [step snd].
    replace (load_settles p r initial_manager) with (@initial_manager Callback)
      by (destruct p; reflexivity).
    exact IH.
Qed.

Lemma run_settled evs : forall ph m,
  in_phase ph m ->
  (ph = Ready -> in_phase Ready (snd (run evs m))) /\
  (forall e, ph = Failed e -> in_phase (Failed e) (snd (run evs m))).
Proof.
  intros ph m Hph.
  destruct (run_phase evs ph m Hph) as (ph' & Hph' & Hready & Hfailed & _).
  split.
  - intros Heq. now rewrite (Hready Heq) in Hph'.
  - intros e Heq. now rewrite (Hfailed e Heq) in Hph'.
Qed.

Lemma run_loading evs : forall m,
  in_phase Loading m ->
  in_phase match load_result_from true evs with
           | Some (inr _) => Ready
           | Some (inl e) => Failed e
           | None => Loading
           end (snd (run evs m)).
Proof.
  induction evs as [|ev evs IH]; intros m Hm; [exact Hm|].
  rewrite run_cons. cbn [snd load_result_from].
  destruct ev as [cb|p r].
  - cbn [step]. pose proof (getFFmpeg_phase Loading m cb Hm) as Hget.
    cbn beta iota in Hget. rewrite Hget. cbn [snd]. apply IH, Hm.
  - cbn [step snd andb]. destruct Hm as [f ->].
    destruct p as [|p]; cbn [Nat.eqb].
    + destruct r as [e|[]]; cbn.
      * apply (proj2 (run_settled evs (Failed e) _ (ex_intro _ f eq_refl)) e eq_refl).
      * apply (proj1 (run_settled evs Ready _ (ex_intro _ f eq_refl)) eq_refl).
    + apply IH. exists f. reflexivity.
Qed.

(** The module is in the phase of its history. *)
Lemma run_phase_of evs :
  in_phase (phase_of evs) (snd (run evs (@initial_manager Callback))).
Proof.
  unfold phase_of, load_result.
  induction evs as [|ev evs IH]; [reflexivity|].
  rewrite run_cons, first_acquire_cons. cbn [snd load_result_from].
  destruct ev as [cb|p r].
  - cbn [step]. pose proof (getFFmpeg_phase Idle initial_manager cb eq_refl) as Hget.
    cbn beta iota in Hget. rewrite Hget. cbn [snd].
    pose proof (run_loading evs _ (ex_intro _ _ eq_refl : in_phase Loading
                  (@Build_Manager Callback
                     [{| listeners := match cb with Some c => [c] | None => [] end |}]
                     [InFlight 0] None (Some 0)))) as Hrun.
    destruct (load_result_from true evs) as [[e|u]|]; exact Hrun.
  - cbn [step snd andb].
    replace (load_settles p r initial_manager) with (@initial_manager Callback)
      by (destruct p; reflexivity).
    exact IH.
Qed.

End EngineHandleManagerFacts.

(** C4.  Over every history of [getFFmpeg] calls and load completions,
    starting from the fresh module: [load()] is started at most once, and
    exactly once as soon as one call was made; every caller was handed the
    one promise or, after completion, the one handle, and all of them see
    the same outcome; and one more call starts the initialization if none
    was started, gets the same promise and starts nothing while the load is
    in flight, gets the handle at once after a successful load, and gets the
    rejected promise, with nothing retried, after a failed one.  The outcome
    that all callers see is the one of the load: nothing as long as the
    load has not ended, the one handle once it has ended well, and the
    value that it threw once it has failed; and the next call is answered
    accordingly: with the handle at once after a load that ended well, and
    with the one promise, in flight or rejected, otherwise. *)
Theorem getFFmpeg_initializes_at_most_once {Callback : Type} (evs : list (Event Callback)) :
  let outs := fst (run evs initial_manager) in
  let m := snd (run evs initial_manager) in
  (initializations m <= 1)%nat /\
  (initializations m = 1%nat <-> first_acquire evs <> None) /\
  (forall a, In a outs ->
     (a = PromiseRef 0 \/ a = Resolved 0) /\ outcome a m = outcome (PromiseRef 0) m) /\
  (forall cb,
     match promises m !! 0%nat with
     | None =>
         fst (getFFmpeg cb m) = PromiseRef 0 /\
         promises (snd (getFFmpeg cb m)) = [InFlight 0] /\
         initializations (snd (getFFmpeg cb m)) = 1%nat
     | Some (InFlight _) => getFFmpeg cb m = (PromiseRef 0, m)
     | Some (Fulfilled h) =>
         getFFmpeg cb m = (Resolved h, m) /\ outcome (PromiseRef 0) m = Some (inr h)
     | Some (Rejected e) =>
         getFFmpeg cb m = (PromiseRef 0, m) /\ outcome (PromiseRef 0) m = Some (inl e)
     end) /\
  outcome (PromiseRef 0) m =
    match load_result evs with
    | Some (inr _) => Some (inr 0%nat)
    | Some (inl e) => Some (inl e)
    | None => None
    end /\
  (forall cb,
     match load_result evs with
     | Some (inr _) => getFFmpeg cb m = (Resolved 0, m)
     | Some (inl _) => getFFmpeg cb m = (PromiseRef 0, m)
     | None => first_acquire evs <> None -> getFFmpeg cb m = (PromiseRef 0, m)
     end).
Proof.
  cbv zeta.
  destruct (run_phase evs Idle (@initial_manager Callback) eq_refl)
    as (ph & Hph & _ & _ & _ & Houts).
  pose proof (in_phase_initializations ph _ Hph) as Hinit.
  pose proof (run_idle_or_acquired evs) as Hidle.
  pose proof (run_phase_of evs) as Hof. unfold phase_of in Hof.
  split; [|split; [|split; [|split; [|split]]]].
  - rewrite Hinit. destruct ph; lia.
  - rewrite Hinit. destruct ph.
    + split; [discriminate|]. intros Hne. exfalso. apply Hne, Hidle, Hph.
    + split; [intros _|reflexivity]. intros Hnone. apply Hidle in Hnone.
      destruct Hph as [f Hm]. cbn in Hnone. rewrite Hnone in Hm. discriminate Hm.
    + split; [intros _|reflexivity]. intros Hnone. apply Hidle in Hnone.
      destruct Hph as [f Hm]. cbn in Hnone. rewrite Hnone in Hm. discriminate Hm.
    + split; [intros _|reflexivity]. intros Hnone. apply Hidle in Hnone.
      destruct Hph as [f Hm]. cbn in Hnone. rewrite Hnone in Hm. discriminate Hm.
  - intros a Hin. destruct (Houts a Hin) as [->|[-> ->]]; [auto|].
    split; [auto|]. destruct Hph as [f ->]. reflexivity.
  - intros cb. pose proof (getFFmpeg_phase ph _ cb Hph) as Hget.
    destruct ph; cbn [in_phase] in Hph.
    + rewrite Hph in *. rewrite Hget. cbn. auto.
    + destruct Hph as [f Hm]. rewrite Hm in *. cbn. exact Hget.
    + destruct Hph as [f Hm]. rewrite Hm in *. cbn. auto.
    + destruct Hph as [f Hm]. rewrite Hm in *. cbn. auto.
  - destruct (load_result evs) as [[e|u]|].
    + destruct Hof as [f ->]. reflexivity.
    + destruct Hof as [f ->]. reflexivity.
    + destruct (first_acquire evs); [destruct Hof as [f ->]|rewrite Hof]; reflexivity.
  - intros cb.
    destruct (load_result evs) as [[e|u]|].
    + exact (getFFmpeg_phase (Failed e) _ cb Hof).
    + exact (getFFmpeg_phase Ready _ cb Hof).
    + intros Hacq. destruct (first_acquire evs); [|congruence].
      exact (getFFmpeg_phase Loading _ cb Hof).
Qed.

(** C10.  Over every history of [getFFmpeg] calls and load completions, the
    progress listeners that the module has registered with the engine are
    the callback of the first call alone (none if that call passed none);
    and once a call was made, any further call, in flight or after
    completion or failure, changes nothing in the module and in the engine
    (so it registers nothing) and returns the one promise or the one
    handle: its callback argument is ignored. *)
Theorem getFFmpeg_registers_first_callback_only {Callback : Type} (evs : list (Event Callback)) :
  let m := snd (run evs initial_manager) in
  all_listeners m =
    match first_acquire evs with
    | Some (Some cb) => [cb]
    | _ => []
    end /\
  (forall cb cb' : option Callback,
     first_acquire evs = None \/
     (getFFmpeg cb m = getFFmpeg cb' m /\
      snd (getFFmpeg cb m) = m /\
      (fst (getFFmpeg cb m) = PromiseRef 0 \/ fst (getFFmpeg cb m) = Resolved 0))).
Proof.
  cbv zeta. split; [apply run_listeners|].
  intros cb cb'.
  destruct (run_phase evs Idle (@initial_manager Callback) eq_refl)
    as (ph & Hph & _).
  pose proof (getFFmpeg_phase ph _ cb Hph) as Hget.
  pose proof (getFFmpeg_phase ph _ cb' Hph) as Hget'.
  destruct ph.
  - left. apply run_idle_or_acquired. exact Hph.
  - right. rewrite Hget, Hget'. auto.
  - right. rewrite Hget, Hget'. auto.
  - right. rewrite Hget, Hget'. auto.
Qed.

(** ** Job orchestrator *)

(** Runs the straight-line part of a monadic body. *)
Ltac run_monad :=
  cbv beta iota delta [bind try_catch act settle ret update_job setJobs log_call
    ffmpeg_writeFile ffmpeg_on ffmpeg_exec ffmpeg_readFile ffmpeg_deleteFile
    createObjectURL].

Section OrchestratorFacts.
Context `{NumberToString}.

Lemma progress_only_refl w : progress_only w w.
Proof. unfold progress_only. repeat split; auto. exists []. now rewrite app_nil_r. Qed.

Lemma progress_only_trans w1 w2 w3 :
  progress_only w1 w2 -> progress_only w2 w3 -> progress_only w1 w3.
Proof.
  intros (Hm & Hj & Hp & Hc & Hu & Hd & n1 & Hn) (Hm' & Hj' & Hp' & Hc' & Hu' & Hd' & n2 & Hn').
  unfold progress_only. repeat split; try congruence.
  exists (n1 ++ n2). rewrite Hn', Hn. now rewrite app_assoc.
Qed.

Lemma erase_set_progress p j : erase_progress (set_progress p j) = erase_progress j.
Proof. reflexivity. Qed.

Lemma fmap_erase_alter_progress p i (l : list VideoJob) :
  erase_progress <$> alter (set_progress p) i l = erase_progress <$> l.
Proof.
  rewrite (list_fmap_alter erase_progress (set_progress p) id).
  - apply list_alter_id. reflexivity.
  - apply Forall_forall. reflexivity.
Qed.

Lemma run_handler_progress_only cb r w :
  exists w', run_handler cb r w = (inr tt, w') /\ progress_only w w'.
Proof.
  destruct cb as [|i].
  - exists w. split; [reflexivity|apply progress_only_refl].
  - eexists. split; [reflexivity|].
    unfold progress_only. cbn. rewrite fmap_erase_alter_progress.
    repeat split; eauto.
Qed.

Lemma for_each_progress_only {A} (body : A -> M unit) xs :
  (forall x w, exists w', body x w = (inr tt, w') /\ progress_only w w') ->
  forall w, exists w', for_each xs body w = (inr tt, w') /\ progress_only w w'.
Proof.
  intros Hbody. induction xs as [|x xs IH]; intros w.
  - exists w. split; [reflexivity|apply progress_only_refl].
  - destruct (Hbody x w) as (w1 & E1 & P1).
    destruct (IH w1) as (w2 & E2 & P2).
    exists w2. split; [|eapply progress_only_trans; eauto].
    cbn [for_each]. unfold bind. now rewrite E1.
Qed.

Lemma emit_progress_progress_only ffmpeg r w :
  exists w', emit_progress ffmpeg r w = (inr tt, w') /\ progress_only w w'.
Proof.
  unfold emit_progress. apply for_each_progress_only.
  intros cb w0. apply run_handler_progress_only.
Qed.

(** The progress events of one [exec] touch nothing but progress values. *)
Lemma progress_events_progress_only ffmpeg rs w :
  exists w', for_each rs (emit_progress ffmpeg) w = (inr tt, w') /\ progress_only w w'.
Proof.
  apply for_each_progress_only. intros r w0. apply emit_progress_progress_only.
Qed.

Lemma fmap_erase_alter (f : VideoJob -> VideoJob) i (l : list VideoJob) :
  (forall x, erase_progress (f x) = f (erase_progress x)) ->
  erase_progress <$> alter f i l = alter f i (erase_progress <$> l).
Proof.
  intros Hf. apply list_fmap_alter. apply Forall_forall. intros x _. apply Hf.
Qed.

Lemma alter_as_insert {A} (f : A -> A) i (l : list A) x :
  l !! i = Some x -> alter f i l = <[i := f x]> l.
Proof.
  revert i. induction l as [|a l IH]; intros [|i] Hl; try discriminate.
  - injection Hl as ->. reflexivity.
  - cbn. f_equal. apply IH. exact Hl.
Qed.

(** Closes the description of the world after a turn. *)
Ltac settle_turn Hj' :=
  cbn;
  repeat match goal with
         | P : _ = _ |- _ => rewrite P
         end;
  split;
  [ repeat first [ rewrite fmap_erase_alter_progress
                 | rewrite fmap_erase_alter by reflexivity
                 | match goal with P : erase_progress <$> jobs _ = _ |- _ => rewrite P end ];
    rewrite ?list_alter_alter_eq; rewrite (alter_as_insert _ _ _ _ Hj'); reflexivity
  | rewrite <- ?app_assoc, ?app_nil_r; repeat split; try reflexivity;
    eexists; reflexivity ].

(** The world after the turn of job [i]. *)
Lemma process_job_spec ffmpeg options e i w j :
  jobs w !! i = Some j ->
  exists w', process_job ffmpeg options e i w = (inr tt, w') /\
    erase_progress <$> jobs w' =
      <[i := settled_job options e (length (object_urls w)) j]> (erase_progress <$> jobs w) /\
    engine_calls w' = engine_calls w ++ job_calls options (file j) e i /\
    object_urls w' =
      object_urls w ++ match job_failure (file j) e with
                       | None => job_blob options e
                       | Some _ => []
                       end /\
    isProcessing w' = isProcessing w /\
    downloads w' = downloads w /\
    exists more, notifications w' = notifications w ++ more.
Proof.
  intros Hj.
  assert (Hj' : (erase_progress <$> jobs w) !! i = Some (erase_progress j))
    by (rewrite list_lookup_fmap, Hj; reflexivity).
  unfold process_job. rewrite Hj.
  unfold job_calls, settled_job, job_failure, job_blob.
  run_monad.
  destruct (arrayBuffer (file j)) as [err|data] eqn:Hab; run_monad;
    [eexists; split; [reflexivity|]; settle_turn Hj'|].
  destruct (env_writeFile e) as [err|[]] eqn:Hwr; run_monad;
    [eexists; split; [reflexivity|]; settle_turn Hj'|].
  match goal with
  | |- context [for_each (env_progress e) (emit_progress ffmpeg) ?W] =>
      destruct (progress_events_progress_only ffmpeg (env_progress e) W)
        as (w2 & E2 & P2); rewrite E2
  end.
  destruct P2 as (Pm & Pj & Pp & Pc & Pu & Pd & more & Pn).
  cbn in Pm, Pj, Pp, Pc, Pu, Pd, Pn.
  destruct (env_exec e) as [err|[]] eqn:Hex; run_monad;
    [eexists; split; [reflexivity|]; settle_turn Hj'|].
  destruct (env_readFile e) as [err|outData] eqn:Hrd; run_monad;
    [eexists; split; [reflexivity|]; settle_turn Hj'|].
  destruct (env_deleteInput e), (env_deleteOutput e); run_monad;
    (eexists; split; [reflexivity|]; settle_turn Hj').
Qed.

Lemma settled_job_file options e url j : file (settled_job options e url j) = file j.
Proof. unfold settled_job. destruct (job_failure (file j) e); reflexivity. Qed.

Lemma settled_job_erase options e url j1 j :
  erase_progress j1 = erase_progress j ->
  settled_job options e url j1 = settled_job options e url j.
Proof.
  intros He. assert (Hf : file j1 = file j) by exact (f_equal file He).
  unfold settled_job. rewrite Hf, He. reflexivity.
Qed.

Lemma erase_settled_job options e url j :
  erase_progress (settled_job options e url j) = settled_job options e url j.
Proof. unfold settled_job. destruct (job_failure (file j) e); reflexivity. Qed.

(** The world after the loop over the jobs [a], ..., [a + n - 1]. *)
Lemma process_jobs_spec ffmpeg options env n : forall a w,
  (a + n <= length (jobs w))%nat ->
  exists w',
    for_each (seq a n) (fun i => process_job ffmpeg options (env i) i) w = (inr tt, w') /\
    length (jobs w') = length (jobs w) /\
    (forall k j, jobs w !! k = Some j ->
       exists j' url, jobs w' !! k = Some j' /\
         erase_progress j' =
           if decide (a <= k < a + n)%nat then settled_job options (env k) url j
           else erase_progress j) /\
    engine_calls w' =
      engine_calls w ++
      flat_map (fun i => match jobs w !! i with
                         | Some j => job_calls options (file j) (env i) i
                         | None => []
                         end) (seq a n) /\
    isProcessing w' = isProcessing w /\
    downloads w' = downloads w /\
    exists more, notifications w' = notifications w ++ more.
Proof.
  induction n as [|n IH]; intros a w Hlen.
  - exists w. split; [reflexivity|]. split; [reflexivity|].
    split; [|split; [|split; [|split]]].
    + intros k j Hk. exists j, 0%nat. split; [exact Hk|].
      destruct (decide (a <= k < a + 0)%nat); [lia|reflexivity].
    + cbn. now rewrite app_nil_r.
    + reflexivity.
    + reflexivity.
    + exists []. now rewrite app_nil_r.
  - destruct (lookup_lt_is_Some_2 (jobs w) a ltac:(lia)) as [ja Hja].
    destruct (process_job_spec ffmpeg options (env a) a w ja Hja)
      as (w1 & E1 & J1 & C1 & U1 & P1 & D1 & n1 & N1).
    assert (Hstep : forall k j, jobs w !! k = Some j ->
              exists j1, jobs w1 !! k = Some j1 /\
                erase_progress j1 =
                  if decide (k = a) then settled_job options (env a) (length (object_urls w)) j
                  else erase_progress j).
    { intros k j Hk.
      pose proof (f_equal (fun l => l !! k) J1) as Hlk. cbn beta in Hlk.
      rewrite list_lookup_fmap in Hlk.
      destruct (decide (k = a)) as [->|Hne].
      - rewrite list_lookup_insert_eq in Hlk
          by (rewrite length_fmap; eapply lookup_lt_Some; eauto).
        destruct (jobs w1 !! a) as [j1|]; [|discriminate].
        exists j1. split; [reflexivity|]. cbn in Hlk. congruence.
      - rewrite list_lookup_insert_ne, list_lookup_fmap, Hk in Hlk by congruence.
        destruct (jobs w1 !! k) as [j1|]; [|discriminate].
        exists j1. split; [reflexivity|]. cbn in Hlk. congruence. }
    assert (Hlen1 : length (jobs w1) = length (jobs w)).
    { pose proof (f_equal length J1) as Hl.
      now rewrite length_insert, !length_fmap in Hl. }
    destruct (IH (S a) w1 ltac:(lia))
      as (w' & E' & L' & J' & C' & P' & D' & n' & N').
    exists w'. split; [|split; [|split; [|split; [|split; [|split]]]]].
    + cbn [seq for_each]. unfold bind. rewrite E1. exact E'.
    + congruence.
    + intros k j Hk. destruct (Hstep k j Hk) as (j1 & Hk1 & He1).
      destruct (J' k j1 Hk1) as (j' & url & Hk' & He').
      destruct (decide (k = a)) as [->|Hne].
      * exists j', (length (object_urls w)). split; [exact Hk'|].
        destruct (decide (S a <= a < S a + n)%nat); [lia|].
        destruct (decide (a <= a < a + S n)%nat); [|lia]. congruence.
      * exists j', url. split; [exact Hk'|].
        destruct (decide (S a <= k < S a + n)%nat);
          destruct (decide (a <= k < a + S n)%nat); try lia.
        -- rewrite He'. now apply settled_job_erase.
        -- congruence.
    + rewrite C', C1. cbn [seq flat_map]. rewrite Hja, <- app_assoc. do 2 f_equal.
      apply flat_map_ext. intros i.
      destruct (jobs w !! i) as [j|] eqn:Hi.
      * destruct (Hstep i j Hi) as (j1 & -> & He1).
        replace (file j1) with (file j); [reflexivity|].
        transitivity (file (erase_progress j1)); [|reflexivity].
        rewrite He1. destruct (decide (i = a)); [|reflexivity].
        now rewrite settled_job_file.
      * destruct (jobs w1 !! i) as [j1|] eqn:Hi1; [|reflexivity].
        apply lookup_lt_Some in Hi1. apply lookup_ge_None in Hi. lia.
    + congruence.
    + congruence.
    + exists (n1 ++ n'). rewrite N', N1. now rewrite app_assoc.
Qed.

Lemma await_getFFmpeg_frame cb load w :
  jobs (snd (await_getFFmpeg cb load w)) = jobs w /\
  isProcessing (snd (await_getFFmpeg cb load w)) = isProcessing w /\
  notifications (snd (await_getFFmpeg cb load w)) = notifications w /\
  engine_calls (snd (await_getFFmpeg cb load w)) = engine_calls w /\
  object_urls (snd (await_getFFmpeg cb load w)) = object_urls w /\
  downloads (snd (await_getFFmpeg cb load w)) = downloads w.
Proof.
  unfold await_getFFmpeg. destruct (getFFmpeg cb (manager w)) as [a m].
  destruct (outcome a _); cbn; auto 10.
Qed.

Lemma await_getFFmpeg_result cb load w w0 :
  manager w = manager w0 ->
  fst (await_getFFmpeg cb load w) = fst (await_getFFmpeg cb load w0).
Proof.
  intros Hm. unfold await_getFFmpeg. rewrite Hm.
  destruct (getFFmpeg cb (manager w0)) as [a m].
  destruct (outcome a _); reflexivity.
Qed.

(** The acquisition fails when the first load fails, and again, whatever
    the environment would answer, once a load has failed. *)
Lemma await_getFFmpeg_first_load_fails cb e w :
  manager w = initial_manager ->
  fst (await_getFFmpeg cb (inl e) w) = inl e.
Proof.
  intros Hm. unfold await_getFFmpeg. rewrite Hm. destruct cb; reflexivity.
Qed.

Lemma await_getFFmpeg_fails_again cb load e w :
  in_phase (Failed e) (manager w) ->
  fst (await_getFFmpeg cb load w) = inl e.
Proof.
  intros [f Hm]. unfold await_getFFmpeg. rewrite Hm. destruct load; reflexivity.
Qed.

(** [handleProcess] on a job list that is not empty. *)
Lemma handleProcess_unfold load env options w :
  jobs w <> [] ->
  handleProcess load env options w =
  match await_getFFmpeg (Some OnAcquire) load (with_isProcessing true w) with
  | (inr ffmpeg, w1) =>
      match for_each (seq 0 (length (jobs w1)))
                     (fun i => process_job ffmpeg options (env i) i) w1 with
      | (inr _, w2) => (inr tt, with_isProcessing false w2)
      | (inl e, w2) => (inl e, w2)
      end
  | (inl e, w1) => (inl e, w1)
  end.
Proof.
  intros Hne. unfold handleProcess.
  destruct (jobs w) as [|j0 js] eqn:Hjobs; [congruence|]. cbn [length Nat.eqb].
  unfold bind, setIsProcessing, act.
  destruct (await_getFFmpeg _ _ _) as [[e|ffmpeg] w1]; [reflexivity|].
  destruct (for_each _ _ w1) as [[e|[]] w2]; reflexivity.
Qed.

Lemma error_text_empty err : error_text err = "" <-> String_value err = "".
Proof.
  unfold error_text. destruct err as [| |s|n m]; cbn; try tauto.
  unfold js_or. cbn. destruct (m =? "") eqn:E; cbn.
  - apply String.eqb_eq in E. subst m.
    destruct (n =? ""); reflexivity.
  - apply String.eqb_neq in E. destruct (n =? "") eqn:En; [tauto|].
    apply String.eqb_neq in En. split; [congruence|].
    destruct n; [congruence|discriminate].
Qed.

(** Every job of the list has had its turn when the loop ends. *)
Lemma handleProcess_settles load env options w ffmpeg :
  jobs w <> [] ->
  fst (await_getFFmpeg (Some OnAcquire) load w) = inr ffmpeg ->
  fst (handleProcess load env options w) = inr tt /\
  length (jobs (snd (handleProcess load env options w))) = length (jobs w) /\
  (forall i j, jobs w !! i = Some j ->
     exists j' url, jobs (snd (handleProcess load env options w)) !! i = Some j' /\
       erase_progress j' = settled_job options (env i) url j) /\
  engine_calls (snd (handleProcess load env options w)) =
    engine_calls w ++
    flat_map (fun i => match jobs w !! i with
                       | Some j => job_calls options (file j) (env i) i
                       | None => []
                       end) (seq 0 (length (jobs w))) /\
  isProcessing (snd (handleProcess load env options w)) = false.
Proof.
  intros Hne Hacq. rewrite (handleProcess_unfold load env options w Hne).
  pose proof (await_getFFmpeg_result (Some OnAcquire) load
                (with_isProcessing true w) w eq_refl) as Hres.
  rewrite Hacq in Hres.
  destruct (await_getFFmpeg_frame (Some OnAcquire) load (with_isProcessing true w))
    as (Fj & _ & _ & Fc & _ & _).
  destruct (await_getFFmpeg (Some OnAcquire) load (with_isProcessing true w))
    as [r1 w1].
  cbn [fst snd jobs engine_calls with_isProcessing] in Hres, Fj, Fc. subst r1.
  destruct (process_jobs_spec ffmpeg options env (length (jobs w1)) 0 w1 ltac:(lia))
    as (w2 & E2 & L2 & J2 & C2 & _).
  rewrite E2. cbn [fst snd jobs engine_calls isProcessing with_isProcessing].
  rewrite Fj, Fc in *.
  split; [reflexivity|]. split; [exact L2|]. split; [|split; [exact C2|reflexivity]].
  intros i j Hi. destruct (J2 i j Hi) as (j' & url & Hi' & He).
  exists j', url. split; [exact Hi'|].
  apply lookup_lt_Some in Hi.
  destruct (decide (0 <= i < 0 + length (jobs w))%nat); [exact He|lia].
Qed.

Lemma settled_job_status options e url j :
  status (settled_job options e url j) =
  match job_failure (file j) e with
  | None => Done
  | Some _ => Error
  end.
Proof. unfold settled_job. destruct (job_failure (file j) e); reflexivity. Qed.

Lemma settled_job_error options e url j :
  error (settled_job options e url j) =
  match job_failure (file j) e with
  | None => error j
  | Some err => Some (error_text err)
  end.
Proof. unfold settled_job. destruct (job_failure (file j) e); reflexivity. Qed.

Lemma erase_progress_fields j :
  file (erase_progress j) = file j /\ status (erase_progress j) = status j /\
  error (erase_progress j) = error j /\ downloadUrl (erase_progress j) = downloadUrl j /\
  outputName (erase_progress j) = outputName j.
Proof. repeat split. Qed.

(** C1, as amended.  When the engine handle is acquired and some call of the
    turn of job [K] throws [err] (reading the file, [writeFile], [exec] or
    [readFile]), the run returns normally, the job list keeps its length,
    job [K] ends in Error with the message [String(err?.message || err)],
    which is empty only if the thrown value itself converts to the empty
    string, every job of the list has its turn in list order (the engine
    receives the calls of job 0, then those of job 1, and so on), every
    job ends in Done when well-formed and in Error otherwise, and the run
    reaches its end ([isProcessing] is false again). *)
Theorem handleProcess_isolates_job_failure load env options w ffmpeg K jobK err :
  fst (await_getFFmpeg (Some OnAcquire) load w) = inr ffmpeg ->
  jobs w !! K = Some jobK ->
  job_failure (file jobK) (env K) = Some err ->
  fst (handleProcess load env options w) = inr tt /\
  length (jobs (snd (handleProcess load env options w))) = length (jobs w) /\
  (exists jobK', jobs (snd (handleProcess load env options w)) !! K = Some jobK' /\
     status jobK' = Error /\ error jobK' = Some (error_text err)) /\
  (error_text err = "" <-> String_value err = "") /\
  (forall i j, jobs w !! i = Some j ->
     exists j', jobs (snd (handleProcess load env options w)) !! i = Some j' /\
       file j' = file j /\
       (well_formed (file j) (env i) -> status j' = Done) /\
       (forall e, job_failure (file j) (env i) = Some e ->
                  status j' = Error /\ error j' = Some (error_text e))) /\
  engine_calls (snd (handleProcess load env options w)) =
    engine_calls w ++
    flat_map (fun i => match jobs w !! i with
                       | Some j => job_calls options (file j) (env i) i
                       | None => []
                       end) (seq 0 (length (jobs w))) /\
  isProcessing (snd (handleProcess load env options w)) = false.
Proof.
  intros Hacq HK Hfail.
  assert (Hne : jobs w <> []) by (intros Hnil; rewrite Hnil in HK; discriminate).
  destruct (handleProcess_settles load env options w ffmpeg Hne Hacq)
    as (Hret & Hlen & Hjobs & Hcalls & Hend).
  assert (Hall : forall i j, jobs w !! i = Some j ->
            exists j', jobs (snd (handleProcess load env options w)) !! i = Some j' /\
              file j' = file j /\
              (well_formed (file j) (env i) -> status j' = Done) /\
              (forall e, job_failure (file j) (env i) = Some e ->
                         status j' = Error /\ error j' = Some (error_text e))).
  { intros i j Hi. destruct (Hjobs i j Hi) as (j' & url & Hi' & He).
    exists j'. split; [exact Hi'|].
    destruct (erase_progress_fields j') as (Ff & Fs & Fe & _).
    rewrite <- Ff, <- Fs, <- Fe, He.
    rewrite settled_job_file, settled_job_status, settled_job_error.
    unfold well_formed. split; [reflexivity|].
    split; [intros ->; reflexivity|intros e ->; auto]. }
  split; [exact Hret|]. split; [exact Hlen|].
  split; [|split; [apply error_text_empty|split; [exact Hall|split; [exact Hcalls|exact Hend]]]].
  destruct (Hall K jobK HK) as (j' & HK' & _ & _ & Hst).
  exists j'. split; [exact HK'|]. exact (Hst err Hfail).
Qed.

(** C3.  When the job list is not empty and the acquisition of the engine
    handle fails with [e], the run ends with [e] thrown to its caller, the
    engine receives no call and no notification is sent, and the job list
    is exactly what it was: each job keeps its status, progress, error
    message and output reference (a list of Pending jobs is still a list of
    Pending jobs). *)
Theorem handleProcess_acquire_failure load env options w e :
  jobs w <> [] ->
  fst (await_getFFmpeg (Some OnAcquire) load w) = inl e ->
  fst (handleProcess load env options w) = inl e /\
  jobs (snd (handleProcess load env options w)) = jobs w /\
  engine_calls (snd (handleProcess load env options w)) = engine_calls w /\
  notifications (snd (handleProcess load env options w)) = notifications w /\
  (Forall (fun j => status j = Pending) (jobs w) ->
   Forall (fun j => status j = Pending) (jobs (snd (handleProcess load env options w)))).
Proof.
  intros Hne Hacq. rewrite (handleProcess_unfold load env options w Hne).
  pose proof (await_getFFmpeg_result (Some OnAcquire) load
                (with_isProcessing true w) w eq_refl) as Hres.
  rewrite Hacq in Hres.
  destruct (await_getFFmpeg_frame (Some OnAcquire) load (with_isProcessing true w))
    as (Fj & _ & Fn & Fc & Fu & _).
  destruct (await_getFFmpeg (Some OnAcquire) load (with_isProcessing true w))
    as [r1 w1].
  cbn [fst snd jobs engine_calls notifications object_urls with_isProcessing]
    in Hres, Fj, Fn, Fc, Fu.
  subst r1. cbn [fst snd]. rewrite Fj. auto 10.
Qed.

End OrchestratorFacts.

(** *** Statuses over the notifications of a run *)

Section History.
Context `{NumberToString}.

Lemma status_quiet_refl w : status_quiet w w.
Proof. split; [reflexivity|]. exists []. split; [now rewrite app_nil_r|constructor]. Qed.

Lemma status_quiet_trans w1 w2 w3 :
  status_quiet w1 w2 -> status_quiet w2 w3 -> status_quiet w1 w3.
Proof.
  intros (S1 & n1 & N1 & F1) (S2 & n2 & N2 & F2). split; [congruence|].
  exists (n1 ++ n2). split; [rewrite N2, N1; now rewrite app_assoc|].
  apply Forall_app. split; [exact F1|].
  rewrite <- S1. exact F2.
Qed.

Lemma statuses_alter_same (f : VideoJob -> VideoJob) i js :
  (forall x, status (f x) = status x) ->
  statuses (alter f i js) = statuses js.
Proof.
  intros Hf. unfold statuses.
  rewrite (list_fmap_alter status f id).
  - apply list_alter_id. reflexivity.
  - apply Forall_forall. intros x _. apply Hf.
Qed.

Lemma statuses_alter_set_status s i js :
  statuses (alter (set_status s) i js) = <[i := s]> (statuses js).
Proof.
  unfold statuses. rewrite list_insert_alter.
  apply list_fmap_alter. apply Forall_forall. reflexivity.
Qed.

Lemma run_handler_status_quiet cb r w :
  exists w', run_handler cb r w = (inr tt, w') /\ status_quiet w w'.
Proof.
  destruct cb as [|i].
  - exists w. split; [reflexivity|apply status_quiet_refl].
  - eexists. split; [reflexivity|]. unfold status_quiet. cbn.
    rewrite statuses_alter_same by reflexivity. split; [reflexivity|].
    eexists. split; [reflexivity|]. constructor; [|constructor].
    apply statuses_alter_same. reflexivity.
Qed.

Lemma for_each_status_quiet {A} (body : A -> M unit) xs :
  (forall x w, exists w', body x w = (inr tt, w') /\ status_quiet w w') ->
  forall w, exists w', for_each xs body w = (inr tt, w') /\ status_quiet w w'.
Proof.
  intros Hbody. induction xs as [|x xs IH]; intros w.
  - exists w. split; [reflexivity|apply status_quiet_refl].
  - destruct (Hbody x w) as (w1 & E1 & P1).
    destruct (IH w1) as (w2 & E2 & P2).
    exists w2. split; [|eapply status_quiet_trans; eauto].
    cbn [for_each]. unfold bind. now rewrite E1.
Qed.

(** The progress events of one [exec] change no status. *)
Lemma progress_events_status_quiet ffmpeg rs w :
  exists w', for_each rs (emit_progress ffmpeg) w = (inr tt, w') /\ status_quiet w w'.
Proof.
  apply for_each_status_quiet. intros r w0. unfold emit_progress.
  apply for_each_status_quiet. intros cb w1. apply run_handler_status_quiet.
Qed.

(** Closes the description of the notifications of a turn. *)
Ltac history_turn :=
  change (@fmap list _ VideoJob Status status) with statuses;
  split; [rewrite <- ?app_assoc; reflexivity|];
  split;
  [ repeat first [ assumption
                 | solve [constructor]
                 | constructor;
                   [cbv beta;
                    rewrite statuses_alter_same, statuses_alter_set_status by reflexivity;
                    reflexivity|] ]
  | repeat first [ rewrite statuses_alter_same by reflexivity
                 | rewrite statuses_alter_set_status ];
    repeat match goal with S : statuses (jobs _) = _ |- _ => rewrite S end;
    rewrite ?list_insert_insert_eq; reflexivity ].

(** The notifications of the turn of job [i]: the job is Processing in all
    of them but the last, which shows the job list as the turn leaves it,
    with the job Done or Error. *)
Lemma process_job_history ffmpeg options e i w j :
  jobs w !! i = Some j ->
  exists during,
    notifications (snd (process_job ffmpeg options e i w)) =
      notifications w ++ during ++ [jobs (snd (process_job ffmpeg options e i w))] /\
    Forall (fun s => statuses s = <[i := Processing]> (statuses (jobs w))) during /\
    statuses (jobs (snd (process_job ffmpeg options e i w))) =
      <[i := match job_failure (file j) e with None => Done | Some _ => Error end]>
        (statuses (jobs w)).
Proof.
  intros Hj. unfold process_job. rewrite Hj. unfold job_failure.
  run_monad.
  destruct (arrayBuffer (file j)) as [err|data] eqn:Hab; run_monad;
    [eexists [_]; cbn; history_turn|].
  destruct (env_writeFile e) as [err|[]] eqn:Hwr; run_monad;
    [eexists [_]; cbn; history_turn|].
  match goal with
  | |- context [for_each (env_progress e) (emit_progress ffmpeg) ?W] =>
      destruct (progress_events_status_quiet ffmpeg (env_progress e) W)
        as (w2 & E2 & S2 & more & N2 & F2); rewrite E2
  end.
  cbn in S2, N2, F2.
  rewrite statuses_alter_same, statuses_alter_set_status in S2, F2 by reflexivity.
  destruct (env_exec e) as [err|[]] eqn:Hex; run_monad;
    [exists (alter (set_progress 0) i (alter (set_status Processing) i (jobs w)) :: more);
     cbn; rewrite N2; history_turn|].
  destruct (env_readFile e) as [err|outData] eqn:Hrd; run_monad;
    [exists (alter (set_progress 0) i (alter (set_status Processing) i (jobs w)) :: more);
     cbn; rewrite N2; history_turn|].
  destruct (env_deleteInput e), (env_deleteOutput e); run_monad;
    (exists (alter (set_progress 0) i (alter (set_status Processing) i (jobs w)) :: more);
     cbn; rewrite N2; history_turn).
Qed.



Lemma keeps_terminal_refl s : keeps_terminal s s.
Proof. intros k st Hk _. exact Hk. Qed.

Lemma keeps_terminal_trans s1 s2 s3 :
  keeps_terminal s1 s2 -> keeps_terminal s2 s3 -> keeps_terminal s1 s3.
Proof. intros H12 H23 k st Hk Ht. apply H23; [apply H12|]; assumption. Qed.

(** Giving a new status to a job that is not Done or Error yet. *)
Lemma keeps_terminal_insert s i st' :
  (forall st, s !! i = Some st -> terminal st = false) ->
  keeps_terminal s (<[i := st']> s).
Proof.
  intros Hi k st Hk Ht. destruct (decide (i = k)) as [->|Hne].
  - rewrite (Hi st Hk) in Ht. discriminate.
  - rewrite list_lookup_insert_ne by exact Hne. exact Hk.
Qed.

Lemma last_cons_default {A} (l : list A) : forall y x,
  List.last (y :: l) x = List.last l y.
Proof.
  induction l as [|z l IH]; intros y x; [reflexivity|].
  change (List.last (y :: z :: l) x) with (List.last (z :: l) x).
  now rewrite !IH.
Qed.

Lemma last_app_cons {A} (l1 : list A) m ms : forall d d',
  List.last (l1 ++ m :: ms) d = List.last (m :: ms) d'.
Proof.
  induction l1 as [|a l1 IH]; intros d d'.
  - cbn [app]. now rewrite !last_cons_default.
  - change ((a :: l1) ++ m :: ms) with (a :: (l1 ++ m :: ms)).
    rewrite last_cons_default. apply IH.
Qed.

Lemma chain_app {A} (R : A -> A -> Prop) x l1 l2 :
  chain R x (l1 ++ l2) <-> chain R x l1 /\ chain R (List.last l1 x) l2.
Proof.
  revert x. induction l1 as [|y l1 IH]; intros x.
  - cbn. tauto.
  - change ((y :: l1) ++ l2) with (y :: (l1 ++ l2)). cbn [chain].
    rewrite IH.
    rewrite last_cons_default. tauto.
Qed.

Lemma chain_same {A} (R : A -> A -> Prop) x l :
  (forall a, R a a) -> Forall (fun y => y = x) l -> chain R x l.
Proof.
  intros Hrefl Hall. induction Hall as [|y l -> _ IH]; cbn; auto.
Qed.

Lemma last_same {A} (x : A) l : Forall (fun y => y = x) l -> List.last l x = x.
Proof.
  induction 1 as [|y l -> _ IH]; [reflexivity|].
  cbn [List.last]. destruct l; [reflexivity|exact IH].
Qed.

Lemma last_snoc {A} (l : list A) x d : List.last (l ++ [x]) d = x.
Proof. apply List.last_last. Qed.

(** In a chain of a preorder each element is related to all later ones. *)
Lemma chain_lookup {A} (R : A -> A -> Prop) x l :
  (forall a, R a a) -> (forall a b c, R a b -> R b c -> R a c) ->
  chain R x l ->
  forall t t' s s', (t <= t')%nat -> l !! t = Some s -> l !! t' = Some s' ->
                    R x s /\ R s s'.
Proof.
  intros Hrefl Htrans. revert x. induction l as [|y l IH]; intros x Hc t t' s s' Hle Ht Ht'.
  - discriminate.
  - destruct Hc as [Hxy Hc]. destruct t as [|t].
    + injection Ht as <-. split; [exact Hxy|].
      destruct t' as [|t']; [injection Ht' as <-; apply Hrefl|].
      cbn in Ht'. destruct (IH y Hc t' t' s' s' (le_n _) Ht' Ht') as [Hys _]. exact Hys.
    + destruct t' as [|t']; [lia|]. cbn in Ht, Ht'.
      destruct (IH y Hc t t' s s' ltac:(lia) Ht Ht') as [Hys Hss].
      split; [eapply Htrans; eauto|exact Hss].
Qed.

(** The notifications of the loop over the jobs [a], ..., [a + n - 1],
    none of which is Done or Error when the loop starts. *)
Lemma process_jobs_history ffmpeg options env n : forall a w,
  (a + n <= length (jobs w))%nat ->
  (forall k st, (a <= k)%nat -> statuses (jobs w) !! k = Some st -> terminal st = false) ->
  exists more,
    notifications (snd (for_each (seq a n)
                          (fun i => process_job ffmpeg options (env i) i) w)) =
      notifications w ++ more /\
    chain keeps_terminal (statuses (jobs w)) (statuses <$> more) /\
    statuses (jobs (snd (for_each (seq a n)
                           (fun i => process_job ffmpeg options (env i) i) w))) =
      List.last (statuses <$> more) (statuses (jobs w)).
Proof.
  induction n as [|n IH]; intros a w Hlen Hopen.
  - exists []. cbn. rewrite app_nil_r. auto.
  - destruct (lookup_lt_is_Some_2 (jobs w) a ltac:(lia)) as [ja Hja].
    destruct (process_job_spec ffmpeg options (env a) a w ja Hja) as (w1 & E1 & _).
    destruct (process_job_history ffmpeg options (env a) a w ja Hja)
      as (during & N1 & F1 & S1).
    rewrite E1 in N1, S1. cbn [snd] in N1, S1.
    assert (Hlen1 : length (jobs w1) = length (jobs w)).
    { pose proof (f_equal length S1) as Hl.
      unfold statuses in Hl. now rewrite length_insert, !length_fmap in Hl. }
    destruct (IH (S a) w1 ltac:(lia)) as (more & N' & C' & S').
    { intros k st Hk. rewrite S1, list_lookup_insert_ne by lia.
      apply Hopen. lia. }
    cbn [seq for_each]. unfold bind. rewrite E1.
    exists ((during ++ [jobs w1]) ++ more).
    split; [rewrite N', N1; now rewrite <- !app_assoc|].
    assert (Hopen_a : forall st, statuses (jobs w) !! a = Some st -> terminal st = false)
      by (intros st; apply Hopen; lia).
    assert (Hduring : Forall (fun y => y = <[a := Processing]> (statuses (jobs w)))
                             (statuses <$> during)).
    { apply Forall_fmap. exact F1. }
    rewrite !fmap_app. cbn [fmap list_fmap].
    assert (Hlast : List.last ((statuses <$> during) ++ [statuses (jobs w1)])
                      (statuses (jobs w)) = statuses (jobs w1)) by apply last_snoc.
    split.
    + apply chain_app. split.
      * apply chain_app. split.
        -- destruct (statuses <$> during) as [|s0 ss] eqn:Hd; [exact I|].
           inversion Hduring as [|? ? Hs0 Hss]; subst.
           split; [apply keeps_terminal_insert; exact Hopen_a|].
           apply chain_same; [apply keeps_terminal_refl|exact Hss].
        -- cbn [chain]. split; [|exact I].
           rewrite S1.
           destruct (statuses <$> during) as [|s0 ss] eqn:Hd.
           ++ cbn. apply keeps_terminal_insert. exact Hopen_a.
           ++ replace (List.last (s0 :: ss) (statuses (jobs w)))
                with (<[a := Processing]> (statuses (jobs w))).
              ** intros k st Hk Ht. destruct (decide (a = k)) as [->|Hne].
                 --- apply list_lookup_insert_Some in Hk.
                     destruct Hk as [[_ [<- _]]|[? _]]; [discriminate|congruence].
                 --- rewrite list_lookup_insert_ne in Hk by exact Hne.
                     rewrite list_lookup_insert_ne by exact Hne. exact Hk.
              ** inversion Hduring as [|? ? Hs0 Hss]; subst. symmetry.
                 rewrite last_cons_default. apply last_same. exact Hss.
      * rewrite Hlast. exact C'.
    + rewrite S'. destruct (statuses <$> more) as [|m ms] eqn:Hm.
      * cbn [List.last]. rewrite app_nil_r. symmetry. exact Hlast.
      * apply eq_sym, last_app_cons.
Qed.


(** X21.  A run changes no status once it is Done or Error.  On a page on
    which no run has registered the listener of a job yet (the first run of
    the page), from a job list in which no job is Done or Error yet, over
    the notifications of the run in order, a job that one notification
    shows as Done or Error has the same status in every later notification
    and in the job list after the run. *)
Lemma handleProcess_terminal_status_is_final load env options w ffmpeg :
  Forall (fun cb => cb = OnAcquire) (all_listeners (manager w)) ->
  Forall (fun j => terminal (status j) = false) (jobs w) ->
  fst (await_getFFmpeg (Some OnAcquire) load w) = inr ffmpeg ->
  exists history,
    notifications (snd (handleProcess load env options w)) = notifications w ++ history /\
    (forall t t' s s' k st,
       (t <= t')%nat -> history !! t = Some s -> history !! t' = Some s' ->
       statuses s !! k = Some st -> terminal st = true ->
       statuses s' !! k = Some st) /\
    (forall t s k st,
       history !! t = Some s -> statuses s !! k = Some st -> terminal st = true ->
       statuses (jobs (snd (handleProcess load env options w))) !! k = Some st).
Proof.
  intros _ Hopen Hacq.
  destruct (jobs w) as [|j0 js] eqn:Hjobs.
  { exists []. unfold handleProcess. rewrite Hjobs. cbn.
    rewrite app_nil_r. split; [reflexivity|]. split; intros; discriminate. }
  assert (Hne : jobs w <> []) by (rewrite Hjobs; discriminate).
  rewrite <- Hjobs in Hopen. clear Hjobs j0 js.
  rewrite (handleProcess_unfold load env options w Hne).
  pose proof (await_getFFmpeg_result (Some OnAcquire) load
                (with_isProcessing true w) w eq_refl) as Hres.
  rewrite Hacq in Hres.
  destruct (await_getFFmpeg_frame (Some OnAcquire) load (with_isProcessing true w))
    as (Fj & _ & Fn & _).
  destruct (await_getFFmpeg (Some OnAcquire) load (with_isProcessing true w))
    as [r1 w1].
  cbn [fst snd jobs notifications with_isProcessing] in Hres, Fj, Fn. subst r1.
  destruct (process_jobs_history ffmpeg options env (length (jobs w1)) 0 w1 ltac:(lia))
    as (more & N & C & S).
  { intros k st _ Hk. rewrite Fj in Hk. unfold statuses in Hk.
    rewrite list_lookup_fmap in Hk.
    destruct (jobs w !! k) as [j|] eqn:Hj; [|discriminate].
    injection Hk as <-.
    rewrite Forall_forall in Hopen. apply Hopen.
    eapply list_elem_of_lookup_2. exact Hj. }
  assert (Hfinal :
    notifications (snd (match for_each (seq 0 (length (jobs w1)))
                                (fun i => process_job ffmpeg options (env i) i) w1 with
                        | (inr _, w2) => (inr tt, with_isProcessing false w2)
                        | (inl e, w2) => (inl e, w2)
                        end)) = notifications w ++ more /\
    statuses (jobs (snd (match for_each (seq 0 (length (jobs w1)))
                                (fun i => process_job ffmpeg options (env i) i) w1 with
                        | (inr _, w2) => (inr tt, with_isProcessing false w2)
                        | (inl e, w2) => (inl e, w2)
                        end))) = List.last (statuses <$> more) (statuses (jobs w))).
  { rewrite <- Fn, <- Fj.
    destruct (for_each _ _ w1) as [[e|[]] w2]; cbn [snd] in N, S |- *; auto. }
  destruct Hfinal as [Hn Hs]. rewrite Fj in C.
  exists more. split; [exact Hn|].
  assert (Hchain : chain keeps_terminal (statuses (jobs w))
                     ((statuses <$> more) ++
                      [statuses (jobs (snd (match for_each (seq 0 (length (jobs w1)))
                                (fun i => process_job ffmpeg options (env i) i) w1 with
                        | (inr _, w2) => (inr tt, with_isProcessing false w2)
                        | (inl e, w2) => (inl e, w2)
                        end)))])).
  { apply chain_app. split; [exact C|]. rewrite Hs. cbn. split; [|exact I].
    apply keeps_terminal_refl. }
  split.
  - intros t t' s s' k st Hle Ht Ht' Hk Hterm.
    refine (proj2 (chain_lookup keeps_terminal _ _ keeps_terminal_refl
                     keeps_terminal_trans Hchain t t' (statuses s) (statuses s') Hle _ _)
              k st Hk Hterm).
    + rewrite lookup_app_l by (rewrite length_fmap; eapply lookup_lt_Some; eauto).
      rewrite list_lookup_fmap, Ht. reflexivity.
    + rewrite lookup_app_l by (rewrite length_fmap; eapply lookup_lt_Some; eauto).
      rewrite list_lookup_fmap, Ht'. reflexivity.
  - intros t s k st Ht Hk Hterm.
    refine (proj2 (chain_lookup keeps_terminal _ _ keeps_terminal_refl
                     keeps_terminal_trans Hchain t (length (statuses <$> more))
                     (statuses s) _ _ _ _) k st Hk Hterm).
    + rewrite length_fmap. apply Nat.lt_le_incl. eapply lookup_lt_Some; eauto.
    + rewrite lookup_app_l by (rewrite length_fmap; eapply lookup_lt_Some; eauto).
      rewrite list_lookup_fmap, Ht. reflexivity.
    + rewrite list_lookup_middle by reflexivity. reflexivity.
Qed.

End History.

(** *** The scenario of the design document *)

(** C1 at the scenario: [b.mov], the second job, makes [exec] throw. *)
Lemma handleProcess_isolates_job_failure_witness :
  fst (await_getFFmpeg (Some OnAcquire) (inr tt) two_files) = inr 0%nat /\
  job_failure (video "b.mov" [Byte.xff]) (second_fails invalid_data 1) = Some invalid_data /\
  fst (@handleProcess decimal_string (inr tt) (second_fails invalid_data)
         example_options two_files) = inr tt /\
  length (jobs (snd (@handleProcess decimal_string (inr tt) (second_fails invalid_data)
                       example_options two_files))) = 2%nat /\
  exists jobK',
    jobs (snd (@handleProcess decimal_string (inr tt) (second_fails invalid_data)
                 example_options two_files)) !! 1%nat = Some jobK' /\
    status jobK' = Error /\
    error jobK' = Some "Invalid data found when processing input".
Proof.
  pose proof (@handleProcess_isolates_job_failure decimal_string
                (inr tt) (second_fails invalid_data) example_options two_files
                0%nat 1%nat
                {| file := video "b.mov" [Byte.xff]; outputName := "b.mp4"; progress := 0;
                   status := Pending; error := None; downloadUrl := None |}
                invalid_data eq_refl eq_refl eq_refl)
    as (Hret & Hlen & HK & _).
  split; [reflexivity|]. split; [reflexivity|].
  split; [exact Hret|]. split; [exact Hlen|]. exact HK.
Defined.

(** C1, as the claim words it: the message of a failed job is never empty.
    When the engine rejects with the empty string, the job ends in Error
    with the empty message. *)
Lemma handleProcess_empty_error_message :
  job_failure (video "b.mov" [Byte.xff]) (second_fails (JsString "") 1) = Some (JsString "") /\
  map (fun j => (status j, error j))
      (jobs (snd (@handleProcess decimal_string (inr tt) (second_fails (JsString ""))
                    example_options two_files))) =
  [(Done, None); (Error, Some "")].
Proof. split; reflexivity. Qed.

(** C3 at the scenario: the runtime components cannot be fetched. *)
Lemma handleProcess_acquire_failure_witness :
  jobs two_files <> [] /\
  fst (await_getFFmpeg (Some OnAcquire) (inl (JsError "TypeError" "Failed to fetch"))
         two_files) = inl (JsError "TypeError" "Failed to fetch") /\
  fst (@handleProcess decimal_string (inl (JsError "TypeError" "Failed to fetch"))
         (second_fails invalid_data) example_options two_files)
    = inl (JsError "TypeError" "Failed to fetch") /\
  jobs (snd (@handleProcess decimal_string (inl (JsError "TypeError" "Failed to fetch"))
               (second_fails invalid_data) example_options two_files))
    = jobs two_files.
Proof.
  assert (Hne : jobs two_files <> []) by discriminate.
  pose proof (@handleProcess_acquire_failure decimal_string
                (inl (JsError "TypeError" "Failed to fetch"))
                (second_fails invalid_data) example_options two_files
                (JsError "TypeError" "Failed to fetch") Hne eq_refl)
    as (Hret & Hjobs & _).
  split; [exact Hne|]. split; [reflexivity|]. split; [exact Hret|exact Hjobs].
Defined.

(** C2 at the scenario: the turn of [b.mov] fails after its input was
    written; the engine is never asked to delete [b.mov] (nor [b.mp4]),
    while the turn of [a.mov] ends with both deletions. *)
Lemma handleProcess_failed_job_is_not_cleaned_up :
  engine_calls (snd (@handleProcess decimal_string (inr tt) (second_fails invalid_data)
                       example_options two_files)) =
  [ writeFile "a.mov" [Byte.x00]; on_progress (OnJob 0);
    exec (@buildArgs decimal_string "a.mov" "a.mp4" example_options);
    readFile "a.mp4"; deleteFile "a.mov"; deleteFile "a.mp4";
    writeFile "b.mov" [Byte.xff]; on_progress (OnJob 1);
    exec (@buildArgs decimal_string "b.mov" "b.mp4" example_options) ] /\
  ~ In (deleteFile "b.mov")
       (engine_calls (snd (@handleProcess decimal_string (inr tt) (second_fails invalid_data)
                             example_options two_files))).
Proof.
  split; [reflexivity|].
  replace (engine_calls _) with
    [ writeFile "a.mov" [Byte.x00]; on_progress (OnJob 0);
      exec (@buildArgs decimal_string "a.mov" "a.mp4" example_options);
      readFile "a.mp4"; deleteFile "a.mov"; deleteFile "a.mp4";
      writeFile "b.mov" [Byte.xff]; on_progress (OnJob 1);
      exec (@buildArgs decimal_string "b.mov" "b.mp4" example_options) ]
    by reflexivity.
  cbn [In]. intros Hin.
  repeat (destruct Hin as [Hin|Hin]; [discriminate Hin|]). exact Hin.
Qed.

(** C5 at the scenario with two sound files: [a.mov] reaches Done with
    progress 100, and the progress event 0.5 of the turn of [b.mov] then
    sets the progress of [a.mov] to 50, where it stays. *)
Lemma handleProcess_progress_of_done_job_overwritten :
  map status_and_progress
      (notifications (snd (@handleProcess decimal_string (inr tt) (both_converted [(1 # 2)%Q])
                             example_options two_files))) =
  [ [(Processing, 0); (Pending, 0)];
    [(Processing, 50); (Pending, 0)];
    [(Done, 100); (Pending, 0)];
    [(Done, 100); (Processing, 0)];
    [(Done, 50); (Processing, 0)];
    [(Done, 50); (Processing, 50)];
    [(Done, 50); (Done, 100)] ]%Z /\
  status_and_progress
      (jobs (snd (@handleProcess decimal_string (inr tt) (both_converted [(1 # 2)%Q])
                    example_options two_files))) =
  [(Done, 50); (Done, 100)]%Z.
Proof. split; reflexivity. Qed.

(** C8 at a negative progress value: the engine reports -0.5 during the
    turn of [a.mov], and the job records -50, below the range 0..100. *)
Lemma handleProcess_negative_progress_recorded :
  progress_percent (-1 # 2)%Q = (-50)%Z /\
  map status_and_progress
      (notifications (snd (@handleProcess decimal_string (inr tt) (both_converted [(-1 # 2)%Q])
                             example_options
                             (fresh_world [video "a.mov" [Byte.x00]])))) =
  [ [(Processing, 0)]; [(Processing, -50)]; [(Done, 100)] ]%Z.
Proof. split; reflexivity. Qed.

(** *** Cleanup, progress and export in general *)

Section OrchestratorPaths.
Context `{NumberToString}.

(** A turn that fails asks the engine for no deletion at all. *)
Lemma job_calls_failure_deletes_nothing options f e i err path :
  job_failure f e = Some err -> ~ In (deleteFile path) (job_calls options f e i).
Proof.
  unfold job_failure, job_calls.
  destruct (arrayBuffer f); [intros _ []|].
  destruct (env_writeFile e); [intros _ [Hin|[]]; discriminate Hin|].
  destruct (env_exec e).
  { intros _ Hin. repeat (destruct Hin as [Hin|Hin]; [discriminate Hin|]). exact Hin. }
  destruct (env_readFile e); [|discriminate].
  intros _ Hin. repeat (destruct Hin as [Hin|Hin]; [discriminate Hin|]). exact Hin.
Qed.

(** A turn without failure ends with the deletion of the input and of the
    output entry, whatever the two deletions answer. *)
Lemma job_calls_success_deletes_both options f e i :
  job_failure f e = None ->
  exists before,
    job_calls options f e i =
    before ++ [deleteFile (name f); deleteFile (getOutputName f (format options))].
Proof.
  unfold job_failure, job_calls.
  destruct (arrayBuffer f) as [|data]; [discriminate|].
  destruct (env_writeFile e); [discriminate|].
  destruct (env_exec e); [discriminate|].
  destruct (env_readFile e); [discriminate|]. intros _.
  eexists [_; _; _; _]. reflexivity.
Qed.

End OrchestratorPaths.

(** The listener of job [i] records the percentage of the event in the job
    object [updated[i]]. *)
Lemma run_handler_records i r w j :
  jobs w !! i = Some j ->
  jobs (snd (run_handler (OnJob i) r w)) !! i = Some (set_progress (progress_percent r) j).
Proof.
  intros Hj. cbn. rewrite list_lookup_alter_eq, Hj. reflexivity.
Qed.

Lemma progress_percent_at_most_100 r : (progress_percent r <= 100)%Z.
Proof. unfold progress_percent, Math_min. lia. Qed.

(** X22.  On the progress values that are not negative the percentage
    lies within 0..100. *)
Lemma progress_percent_clamped r :
  (0 <= r)%Q -> (0 <= progress_percent r <= 100)%Z.
Proof.
  intros Hr.
  assert (Hround : (0 <= Math_round (r * 100)%Q)%Z).
  { unfold Math_round. change 0%Z with (Qfloor 0). apply Qfloor_resp_le.
    apply Qle_trans with (r * 100)%Q.
    - apply Qmult_le_0_compat; [exact Hr|discriminate].
    - rewrite <- (Qplus_0_r (r * 100)) at 1.
      apply Qplus_le_compat; [apply Qle_refl|discriminate]. }
  unfold progress_percent, Math_min. lia.
Qed.

(** C9, as the claim words it: export of an empty list does nothing.
    [zipBlobsAsZipFile] on the empty list builds an empty archive and clicks
    a download anchor for it. *)
Lemma zipBlobsAsZipFile_empty_list_downloads :
  fst (zipBlobsAsZipFile [] "processed-videos.zip" (fresh_world [])) = inr tt /\
  downloads (snd (zipBlobsAsZipFile [] "processed-videos.zip" (fresh_world []))) =
    [("processed-videos.zip", Some (ZipBlob []))] /\
  snd (zipBlobsAsZipFile [] "processed-videos.zip" (fresh_world [])) <> fresh_world [].
Proof. split; [reflexivity|]. split; [reflexivity|]. discriminate. Qed.

(** C9, as amended.  [handleZip], the caller of the export, is a no-op when
    no job is ready (Done with an output reference), so for the empty job
    list too: it returns normally and leaves the world as it is, with no
    archive, no object URL and no download.  [zipBlobsAsZipFile] itself has
    no such guard: on the empty list it returns normally and adds the
    download of an empty archive. *)
Theorem handleZip_without_ready_job_is_noop w :
  List.filter is_ready (jobs w) = [] ->
  handleZip w = (inr tt, w) /\
  forall zipName,
    fst (zipBlobsAsZipFile [] zipName w) = inr tt /\
    downloads (snd (zipBlobsAsZipFile [] zipName w)) =
      downloads w ++ [(zipName, Some (ZipBlob []))].
Proof.
  intros Hready. split.
  - unfold handleZip. rewrite Hready. reflexivity.
  - intros zipName. split; [reflexivity|].
    cbn. rewrite list_lookup_middle by reflexivity. reflexivity.
Qed.

Lemma handleZip_without_ready_job_is_noop_witness :
  List.filter is_ready (jobs two_files) = [] /\
  handleZip two_files = (inr tt, two_files) /\
  handleZip (fresh_world []) = (inr tt, fresh_world []).
Proof.
  split; [reflexivity|]. split.
  - exact (proj1 (handleZip_without_ready_job_is_noop two_files eq_refl)).
  - exact (proj1 (handleZip_without_ready_job_is_noop (fresh_world []) eq_refl)).
Defined.

(** * Further properties *)

(** ** Output names *)

Lemma extension_chars_dot b ext :
  extension_chars (b ++ String "." ext)%string = false.
Proof.
  induction b as [|c b IH]; cbn.
  - reflexivity.
  - rewrite IH. now rewrite !andb_false_r.
Qed.

Lemma is_extension_dot b ext : is_extension (b ++ String "." ext)%string = false.
Proof.
  destruct b as [|c b]; [reflexivity|]. apply (extension_chars_dot (String c b)).
Qed.

Lemma remove_extension_app base ext :
  is_extension ext = true ->
  remove_extension (base ++ String "." ext)%string = base.
Proof.
  intros Hext. induction base as [|c base IH]; cbn.
  - now rewrite Hext.
  - rewrite is_extension_dot, andb_false_r. now rewrite IH.
Qed.

(** What [remove_extension] leaves and what it cuts. *)
Lemma remove_extension_cases s :
  remove_extension s = s \/
  exists ext, is_extension ext = true /\
              s = (remove_extension s ++ String "." ext)%string.
Proof.
  induction s as [|c s IH]; [now left|]. cbn [remove_extension].
  destruct (Ascii.eqb c "." && is_extension s) eqn:E.
  - right. apply andb_true_iff in E. destruct E as [Ec Es].
    apply Ascii.eqb_eq in Ec. subst c. exists s. split; [exact Es|reflexivity].
  - destruct IH as [IH|(ext & Hext & IH)].
    + left. now rewrite IH.
    + right. exists ext. split; [exact Hext|]. cbn. now rewrite <- IH.
Qed.

Lemma is_extension_Format_string fmt : is_extension (Format_string fmt) = true.
Proof. destruct fmt; reflexivity. Qed.

(** X1.  The output name of a file named [base.ext], where [ext] is not
    empty and has no dot and no slash, is [base] followed by a dot and the
    format: the last extension is replaced, whatever [base] holds (dots,
    slashes, nothing). *)
Theorem getOutputName_replaces_extension f fmt base ext :
  name f = (base ++ "." ++ ext)%string ->
  is_extension ext = true ->
  getOutputName f fmt = (base ++ "." ++ Format_string fmt)%string.
Proof.
  intros Hname Hext. unfold getOutputName. rewrite Hname.
  change ("." ++ ext)%string with (String "." ext).
  now rewrite remove_extension_app.
Qed.

Lemma getOutputName_replaces_extension_witness :
  name (video "clip.final.mov" []) = ("clip.final" ++ "." ++ "mov")%string /\
  is_extension "mov" = true /\
  getOutputName (video "clip.final.mov" []) webm = "clip.final.webm".
Proof.
  split; [reflexivity|]. split; [reflexivity|].
  exact (getOutputName_replaces_extension (video "clip.final.mov" []) webm
           "clip.final" "mov" eq_refl eq_refl).
Defined.

(** X2.  Every output name is a beginning of the file name followed by a
    dot and the format: either the whole file name (nothing is cut when the
    name has no extension), or the file name without its last extension.
    So an output name is never empty and always carries the extension of
    the format. *)
Theorem getOutputName_shape f fmt :
  exists base,
    getOutputName f fmt = (base ++ "." ++ Format_string fmt)%string /\
    (name f = base \/
     exists ext, is_extension ext = true /\ name f = (base ++ "." ++ ext)%string).
Proof.
  exists (remove_extension (name f)). split; [reflexivity|].
  destruct (remove_extension_cases (name f)) as [Hs|(ext & Hext & Hs)].
  - left. now rewrite Hs.
  - right. exists ext. split; [exact Hext|exact Hs].
Qed.

(** X3.  Naming is stable under conversion of an output: a file that bears
    the output name of [f] gets, for any format, the output name that [f]
    itself gets for that format. *)
Theorem getOutputName_of_output f fmt fmt' mime content :
  getOutputName {| name := getOutputName f fmt; type := mime; arrayBuffer := content |} fmt'
  = getOutputName f fmt'.
Proof.
  unfold getOutputName at 1. cbn [name]. unfold getOutputName at 1.
  change ("." ++ Format_string fmt)%string with (String "." (Format_string fmt)).
  rewrite remove_extension_app by apply is_extension_Format_string.
  reflexivity.
Qed.

(** ** Argument builder: the other flags *)

Section ArgumentBuilderMore.
Context `{NumberToString}.

(** What [buildArgs] gives to the flag [-ss]. *)
Lemma seek_flags_eq i o opts :
  flag_values "-ss" (read_args (buildArgs i o opts)) =
  match trimStartSec opts with
  | Some ts => if number_gt ts 0%Q then [String_number ts] else []
  | None => []
  end.
Proof.
  destruct opts as [[] [] [] [ts|] [te|]]; read_built_args;
    try reflexivity; congruence.
Qed.

(** X4.  The argument sequence holds a seek flag ([-ss]) exactly when
    trim-start is set and positive, with the trim-start as its value; the
    sequence reads as [-y], then the seek flag if there is one, then the
    input, so the seek is an input option; and a trim-start that is set but
    not positive gives no seek flag while the duration limit is still
    trim-end - trim-start. *)
Theorem buildArgs_seek_flag i o opts :
  (forall v, In v (flag_values "-ss" (read_args (buildArgs i o opts))) <->
             exists ts, trimStartSec opts = Some ts /\ (0 < ts)%Q /\ v = String_number ts) /\
  (exists rest,
     read_args (buildArgs i o opts) =
     Switch "-y" ::
       map (Flag "-ss") (flag_values "-ss" (read_args (buildArgs i o opts))) ++
       Flag "-i" i :: rest) /\
  (forall ts te,
     trimStartSec opts = Some ts -> trimEndSec opts = Some te ->
     (ts <= 0)%Q -> (ts < te)%Q ->
     flag_values "-ss" (read_args (buildArgs i o opts)) = [] /\
     duration_flags i o opts = [String_number (te - ts)%Q]).
Proof.
  split; [|split].
  - rewrite seek_flags_eq. intros v.
    destruct (trimStartSec opts) as [ts|].
    + destruct (number_gt ts 0%Q) eqn:E.
      * apply number_gt_lt in E. split.
        -- intros [<-|[]]. eauto.
        -- intros (ts' & [= <-] & _ & ->). now left.
      * split; [intros []|]. intros (ts' & [= <-] & Hlt & _).
        apply number_gt_lt in Hlt. congruence.
    + split; [intros []|]. intros (ts' & Hts & _). discriminate.
  - rewrite seek_flags_eq.
    destruct opts as [[] [] [] [ts|] [te|]]; read_built_args;
      cbn [map app]; eexists; reflexivity.
  - intros ts te Hts Hte Hle Hlt. rewrite seek_flags_eq, duration_flags_eq, Hts, Hte.
    assert (E1 : number_gt ts 0%Q = false).
    { destruct (number_gt ts 0%Q) eqn:E; [|reflexivity].
      apply number_gt_lt in E. exfalso. exact (Qlt_not_le _ _ E Hle). }
    assert (E2 : number_gt te ts = true) by (apply number_gt_lt; exact Hlt).
    now rewrite E1, E2.
Qed.

(** X5.  Whatever the input and output names are (a name may look like a
    flag), the sequence starts with the overwrite switch [-y], declares the
    input exactly once, with the input name as the value of [-i], and ends
    with the output name. *)
Theorem buildArgs_input_and_output i o opts :
  hd "" (buildArgs i o opts) = "-y" /\
  flag_values "-i" (read_args (buildArgs i o opts)) = [i] /\
  List.last (buildArgs i o opts) "" = o.
Proof.
  split; [|split].
  - destruct opts as [[] [] [] [ts|] [te|]]; unfold buildArgs;
      cbn [trimStartSec trimEndSec format bitrate resolution Format_eqb app];
      repeat match goal with
             | |- context [if number_gt ?a ?b then _ else _] => destruct (number_gt a b)
             end; reflexivity.
  - destruct opts as [[] [] [] [ts|] [te|]]; read_built_args; reflexivity.
  - unfold buildArgs. apply List.last_last.
Qed.

(** X6.  The optional flags follow the options and nothing else: a video
    bitrate flag ([-b:v]) appears only when the bitrate is not auto, with
    the chosen rate; a scale filter ([-vf]) only under a resolution cap,
    with the width of the cap; a pixel format only for mp4; and the audio
    bitrate is 128k for mp4 and 96k for webm. *)
Theorem buildArgs_optional_flags i o opts :
  flag_values "-b:v" (read_args (buildArgs i o opts)) =
    match bitrate opts with
    | auto => []
    | b => [Bitrate_string b]
    end /\
  flag_values "-vf" (read_args (buildArgs i o opts)) =
    match resolution opts with
    | source => []
    | res720p => [scale_filter "1280"]
    | res1080p => [scale_filter "1920"]
    end /\
  flag_values "-pix_fmt" (read_args (buildArgs i o opts)) =
    match format opts with
    | mp4 => ["yuv420p"]
    | webm => []
    end /\
  flag_values "-b:a" (read_args (buildArgs i o opts)) =
    match format opts with
    | mp4 => ["128k"]
    | webm => ["96k"]
    end.
Proof.
  destruct opts as [[] [] [] [ts|] [te|]];
    cbn [format bitrate resolution];
    (split; [|split; [|split]]); read_built_args; reflexivity.
Qed.

End ArgumentBuilderMore.

(** ** Progress values *)

Lemma Math_round_le x y : (x <= y)%Q -> (Math_round x <= Math_round y)%Z.
Proof.
  intros Hxy. unfold Math_round. apply Qfloor_resp_le.
  apply Qplus_le_compat; [exact Hxy|apply Qle_refl].
Qed.

(** X7.  The recorded percentage never exceeds 100, grows with the
    progress value (progress values that do not decrease give percentages
    that do not decrease), and is 100 for every progress value from 1.0
    on. *)
Theorem progress_percent_monotone r r' :
  (progress_percent r <= 100)%Z /\
  ((r <= r')%Q -> (progress_percent r <= progress_percent r')%Z) /\
  ((1 <= r)%Q -> progress_percent r = 100%Z).
Proof.
  split; [apply progress_percent_at_most_100|]. split.
  - intros Hle. unfold progress_percent, Math_min.
    assert (Math_round (r * 100)%Q <= Math_round (r' * 100)%Q)%Z.
    { apply Math_round_le. apply Qmult_le_compat_r; [exact Hle|discriminate]. }
    lia.
  - intros Hr. unfold progress_percent, Math_min.
    assert (100 <= Math_round (r * 100)%Q)%Z.
    { change 100%Z with (Math_round (1 * 100)%Q). apply Math_round_le.
      apply Qmult_le_compat_r; [exact Hr|discriminate]. }
    lia.
Qed.

Lemma progress_percent_clamped_witness :
  (0 <= 1 # 2)%Q /\ progress_percent (1 # 2)%Q = 50%Z /\
  (0 <= progress_percent (1 # 2)%Q <= 100)%Z.
Proof.
  assert (H0 : (0 <= 1 # 2)%Q) by discriminate.
  split; [exact H0|]. split; [reflexivity|exact (progress_percent_clamped (1 # 2)%Q H0)].
Defined.

Section OrchestratorMore.
Context `{NumberToString}.

Lemma for_each_ext {A} (f g : A -> M unit) xs :
  (forall x w, f x w = g x w) -> forall w, for_each xs f w = for_each xs g w.
Proof.
  intros Hfg. induction xs as [|x xs IH]; intros w; [reflexivity|].
  cbn [for_each]. unfold bind. rewrite Hfg.
  destruct (g x w) as [[e|[]] w1]; [reflexivity|apply IH].
Qed.

Lemma process_job_deletions ffmpeg options e e' i w :
  same_but_deletions e e' ->
  process_job ffmpeg options e i w = process_job ffmpeg options e' i w.
Proof.
  intros (Hw & Hp & Hx & Hr). unfold process_job.
  destruct (jobs w !! i) as [j|]; [|reflexivity].
  run_monad. rewrite <- Hw, <- Hp, <- Hx, <- Hr.
  destruct (arrayBuffer (file j)) as [err|data]; run_monad; [reflexivity|].
  destruct (env_writeFile e) as [err|[]]; run_monad; [reflexivity|].
  match goal with
  | |- context [for_each (env_progress e) (emit_progress ffmpeg) ?W] =>
      destruct (for_each (env_progress e) (emit_progress ffmpeg) W) as [[err|[]] w2]
  end; run_monad; [reflexivity|].
  destruct (env_exec e) as [err|[]]; run_monad; [reflexivity|].
  destruct (env_readFile e) as [err|outData]; run_monad; [reflexivity|].
  destruct (env_deleteInput e), (env_deleteOutput e),
           (env_deleteInput e'), (env_deleteOutput e'); reflexivity.
Qed.

(** X9.  What the engine answers to the two deletions of a turn has no
    effect at all: a run in which the deletions are answered in any other
    way ends with the same result in the same world (same statuses, same
    engine calls, both deletions attempted even when the first one
    fails). *)
Theorem handleProcess_ignores_deletion_outcomes load env options w
    (input_deletion output_deletion : nat -> result unit) :
  handleProcess load
    (fun i => with_deletions (input_deletion i) (output_deletion i) (env i)) options w
  = handleProcess load env options w.
Proof.
  unfold handleProcess.
  destruct (length (jobs w) =? 0)%nat; [reflexivity|].
  unfold bind. destruct (setIsProcessing true w) as [[e|[]] w0]; [reflexivity|].
  destruct (await_getFFmpeg (Some OnAcquire) load w0) as [[e|ffmpeg] w1]; [reflexivity|].
  rewrite (for_each_ext
             (fun i => process_job ffmpeg options
                         (with_deletions (input_deletion i) (output_deletion i) (env i)) i)
             (fun i => process_job ffmpeg options (env i) i)).
  - reflexivity.
  - intros i w2. apply process_job_deletions. repeat split.
Qed.


(** The listeners after the turn of job [i]. *)
Lemma process_job_manager ffmpeg options e i w j :
  jobs w !! i = Some j ->
  manager (snd (process_job ffmpeg options e i w)) =
  if reaches_exec (file j) e then add_listener ffmpeg (OnJob i) (manager w)
  else manager w.
Proof.
  intros Hj. unfold process_job. rewrite Hj. unfold reaches_exec.
  run_monad.
  destruct (arrayBuffer (file j)) as [err|data]; run_monad; [reflexivity|].
  destruct (env_writeFile e) as [err|[]]; run_monad; [reflexivity|].
  match goal with
  | |- context [for_each (env_progress e) (emit_progress ffmpeg) ?W] =>
      destruct (progress_events_progress_only ffmpeg (env_progress e) W)
        as (w2 & E2 & Pm & _); rewrite E2
  end.
  cbn in Pm.
  destruct (env_exec e) as [err|[]]; run_monad; [exact Pm|].
  destruct (env_readFile e) as [err|outData]; run_monad; [exact Pm|].
  destruct (env_deleteInput e), (env_deleteOutput e); exact Pm.
Qed.

(** A turn without failure leaves its job at progress 100. *)
Lemma process_job_done_progress ffmpeg options e i w j :
  jobs w !! i = Some j ->
  job_failure (file j) e = None ->
  exists j', jobs (snd (process_job ffmpeg options e i w)) !! i = Some j' /\
             progress j' = 100%Z.
Proof.
  intros Hj. unfold process_job, job_failure. rewrite Hj.
  run_monad.
  destruct (arrayBuffer (file j)) as [err|data]; run_monad; [discriminate|].
  destruct (env_writeFile e) as [err|[]]; run_monad; [discriminate|].
  match goal with
  | |- context [for_each (env_progress e) (emit_progress ffmpeg) ?W] =>
      destruct (progress_events_progress_only ffmpeg (env_progress e) W)
        as (w2 & E2 & _ & Pj & _); rewrite E2
  end.
  cbn in Pj.
  assert (Hlen : (i < length (jobs w2))%nat).
  { pose proof (f_equal length Pj) as Hl.
    rewrite !length_fmap, !length_alter in Hl. rewrite Hl.
    eapply lookup_lt_Some; eauto. }
  destruct (lookup_lt_is_Some_2 _ _ Hlen) as [j2 Hj2].
  destruct (env_exec e) as [err|[]]; run_monad; [discriminate|].
  destruct (env_readFile e) as [err|outData]; run_monad; [discriminate|].
  intros _.
  destruct (env_deleteInput e), (env_deleteOutput e); cbn;
    rewrite !list_lookup_alter_eq, Hj2; cbn; eexists; split; reflexivity.
Qed.

(** A turn during which the engine reports no progress touches no other
    job. *)
Lemma process_job_quiet ffmpeg options e i w k :
  (reaches_exec (file_of w i) e = false \/ env_progress e = []) ->
  k <> i ->
  jobs (snd (process_job ffmpeg options e i w)) !! k = jobs w !! k.
Proof.
  intros Hquiet Hk. unfold process_job, file_of, reaches_exec in *.
  destruct (jobs w !! i) as [j|] eqn:Hj; [|reflexivity].
  run_monad.
  destruct (arrayBuffer (file j)) as [err|data]; run_monad;
    [cbn; now rewrite !list_lookup_alter_ne by congruence|].
  destruct (env_writeFile e) as [err|[]]; run_monad;
    [cbn; now rewrite !list_lookup_alter_ne by congruence|].
  destruct Hquiet as [Hq|Hq]; [discriminate|]. rewrite Hq. cbn [for_each]. run_monad.
  destruct (env_exec e) as [err|[]]; run_monad;
    [cbn; now rewrite !list_lookup_alter_ne by congruence|].
  destruct (env_readFile e) as [err|outData]; run_monad;
    [cbn; now rewrite !list_lookup_alter_ne by congruence|].
  destruct (env_deleteInput e), (env_deleteOutput e); cbn;
    now rewrite !list_lookup_alter_ne by congruence.
Qed.

End OrchestratorMore.

Section OrchestratorLoops.
Context `{NumberToString}.

Lemma process_job_file_of ffmpeg options e i w k :
  file_of (snd (process_job ffmpeg options e i w)) k = file_of w k.
Proof.
  unfold file_of.
  destruct (jobs w !! i) as [j|] eqn:Hj.
  - destruct (process_job_spec ffmpeg options e i w j Hj) as (w1 & E1 & J1 & _).
    rewrite E1. cbn [snd].
    pose proof (f_equal (fun l => l !! k) J1) as Hlk. cbn beta in Hlk.
    rewrite list_lookup_fmap in Hlk.
    destruct (decide (k = i)) as [->|Hne].
    + rewrite list_lookup_insert_eq in Hlk
        by (rewrite length_fmap; eapply lookup_lt_Some; eauto).
      rewrite Hj. destruct (jobs w1 !! i) as [j1|]; [|discriminate].
      cbn in Hlk. injection Hlk as Hlk.
      transitivity (file (erase_progress j1)); [reflexivity|].
      rewrite Hlk. apply settled_job_file.
    + rewrite list_lookup_insert_ne, list_lookup_fmap in Hlk by congruence.
      destruct (jobs w1 !! k) as [j1|], (jobs w !! k) as [j0|]; try discriminate;
        [|reflexivity].
      cbn in Hlk. injection Hlk as Hlk _ _ _ _. exact Hlk.
  - unfold process_job. rewrite Hj. reflexivity.
Qed.

Lemma process_job_length ffmpeg options e i w :
  length (jobs (snd (process_job ffmpeg options e i w))) = length (jobs w).
Proof.
  destruct (jobs w !! i) as [j|] eqn:Hj.
  - destruct (process_job_spec ffmpeg options e i w j Hj) as (w1 & E1 & J1 & _).
    rewrite E1. cbn [snd]. pose proof (f_equal length J1) as Hl.
    now rewrite length_insert, !length_fmap in Hl.
  - unfold process_job. rewrite Hj. reflexivity.
Qed.

Lemma for_each_cons {A} (body : A -> M unit) x xs w :
  snd (for_each (x :: xs) body w) =
  match fst (body x w) with
  | inr _ => snd (for_each xs body (snd (body x w)))
  | inl _ => snd (body x w)
  end.
Proof.
  cbn [for_each]. unfold bind. destruct (body x w) as [[e|[]] w1]; reflexivity.
Qed.

Lemma process_job_returns ffmpeg options e i w :
  (i < length (jobs w))%nat -> fst (process_job ffmpeg options e i w) = inr tt.
Proof.
  intros Hi. destruct (lookup_lt_is_Some_2 _ _ Hi) as [j Hj].
  destruct (process_job_spec ffmpeg options e i w j Hj) as (w1 & E1 & _).
  now rewrite E1.
Qed.

(** The listeners after the loop over the jobs [a], ..., [a + n - 1]. *)
Lemma process_jobs_manager ffmpeg options env n : forall a w,
  (a + n <= length (jobs w))%nat ->
  manager (snd (for_each (seq a n) (fun i => process_job ffmpeg options (env i) i) w)) =
  fold_left (fun m cb => add_listener ffmpeg cb m) (registrations env w a n) (manager w).
Proof.
  induction n as [|n IH]; intros a w Hlen; [reflexivity|].
  cbn [seq]. rewrite for_each_cons.
  rewrite process_job_returns by lia.
  rewrite IH by (rewrite process_job_length; lia).
  destruct (lookup_lt_is_Some_2 (jobs w) a ltac:(lia)) as [ja Hja].
  rewrite (process_job_manager ffmpeg options (env a) a w ja Hja).
  unfold registrations. cbn [seq flat_map].
  rewrite fold_left_app.
  replace (file_of w a) with (file ja) by (unfold file_of; now rewrite Hja).
  rewrite (flat_map_ext
             (fun i => if reaches_exec (file_of (snd (process_job ffmpeg options (env a) a w)) i) (env i)
                       then [OnJob i] else [])
             (fun i => if reaches_exec (file_of w i) (env i) then [OnJob i] else []))
    by (intros i; now rewrite process_job_file_of).
  destruct (reaches_exec (file ja) (env a)); reflexivity.
Qed.

(** The object URLs after the loop over the jobs [a], ..., [a + n - 1]. *)
Lemma process_jobs_urls ffmpeg options env n : forall a w,
  (a + n <= length (jobs w))%nat ->
  object_urls (snd (for_each (seq a n) (fun i => process_job ffmpeg options (env i) i) w)) =
  object_urls w ++ created_urls options env w a n.
Proof.
  induction n as [|n IH]; intros a w Hlen; [cbn; now rewrite app_nil_r|].
  cbn [seq]. rewrite for_each_cons.
  rewrite process_job_returns by lia.
  rewrite IH by (rewrite process_job_length; lia).
  destruct (lookup_lt_is_Some_2 (jobs w) a ltac:(lia)) as [ja Hja].
  destruct (process_job_spec ffmpeg options (env a) a w ja Hja) as (w1 & E1 & _ & _ & U1 & _).
  unfold created_urls. cbn [seq flat_map].
  replace (file_of w a) with (file ja) by (unfold file_of; now rewrite Hja).
  rewrite (flat_map_ext
             (fun i => match job_failure (file_of (snd (process_job ffmpeg options (env a) a w)) i) (env i) with
                       | None => job_blob options (env i)
                       | Some _ => []
                       end)
             (fun i => match job_failure (file_of w i) (env i) with
                       | None => job_blob options (env i)
                       | Some _ => []
                       end))
    by (intros i; now rewrite process_job_file_of).
  rewrite E1. cbn [snd]. rewrite U1. now rewrite <- app_assoc.
Qed.

(** Turns without progress events leave the jobs before them as they are. *)
Lemma process_jobs_quiet ffmpeg options env n : forall a w k,
  (k < a)%nat ->
  (forall i, (a <= i < a + n)%nat ->
             reaches_exec (file_of w i) (env i) = false \/ env_progress (env i) = []) ->
  jobs (snd (for_each (seq a n) (fun i => process_job ffmpeg options (env i) i) w)) !! k =
  jobs w !! k.
Proof.
  induction n as [|n IH]; intros a w k Hk Hquiet; [reflexivity|].
  cbn [seq]. rewrite for_each_cons.
  assert (Hturn : jobs (snd (process_job ffmpeg options (env a) a w)) !! k = jobs w !! k).
  { apply process_job_quiet; [apply Hquiet; lia|lia]. }
  destruct (fst (process_job ffmpeg options (env a) a w)); [exact Hturn|].
  rewrite IH; [exact Hturn|lia|].
  intros i Hi. rewrite process_job_file_of. apply Hquiet. lia.
Qed.

End OrchestratorLoops.

Section OrchestratorRuns.
Context `{NumberToString}.

Lemma for_each_file_of ffmpeg options env n : forall a w k,
  file_of (snd (for_each (seq a n) (fun i => process_job ffmpeg options (env i) i) w)) k =
  file_of w k.
Proof.
  induction n as [|n IH]; intros a w k; [reflexivity|].
  cbn [seq]. rewrite for_each_cons.
  destruct (fst (process_job ffmpeg options (env a) a w)).
  - apply process_job_file_of.
  - rewrite IH. apply process_job_file_of.
Qed.

Lemma for_each_app {A} (body : A -> M unit) xs ys w :
  for_each (xs ++ ys) body w =
  match for_each xs body w with
  | (inr _, w1) => for_each ys body w1
  | (inl e, w1) => (inl e, w1)
  end.
Proof.
  revert w. induction xs as [|x xs IH]; intros w; [reflexivity|].
  cbn [app for_each]. unfold bind.
  destruct (body x w) as [[e|[]] w1]; [reflexivity|apply IH].
Qed.

(** The world in which the loop of a run starts and the one it ends in. *)
Lemma handleProcess_loop load env options w ffmpeg :
  jobs w <> [] ->
  fst (await_getFFmpeg (Some OnAcquire) load w) = inr ffmpeg ->
  exists w1,
    jobs w1 = jobs w /\
    object_urls w1 = object_urls w /\
    manager w1 = manager (snd (await_getFFmpeg (Some OnAcquire) load w)) /\
    snd (handleProcess load env options w) =
      with_isProcessing false
        (snd (for_each (seq 0 (length (jobs w1)))
                (fun i => process_job ffmpeg options (env i) i) w1)).
Proof.
  intros Hne Hacq. rewrite (handleProcess_unfold load env options w Hne).
  pose proof (await_getFFmpeg_result (Some OnAcquire) load
                (with_isProcessing true w) w eq_refl) as Hres.
  rewrite Hacq in Hres.
  destruct (await_getFFmpeg_frame (Some OnAcquire) load (with_isProcessing true w))
    as (Fj & _ & _ & _ & Fu & _).
  assert (Fm : manager (snd (await_getFFmpeg (Some OnAcquire) load (with_isProcessing true w)))
               = manager (snd (await_getFFmpeg (Some OnAcquire) load w))).
  { unfold await_getFFmpeg. cbn [manager with_isProcessing].
    destruct (getFFmpeg (Some OnAcquire) (manager w)) as [a m].
    destruct (outcome a _); reflexivity. }
  destruct (await_getFFmpeg (Some OnAcquire) load (with_isProcessing true w))
    as [r1 w1].
  cbn [fst snd jobs object_urls with_isProcessing] in Hres, Fj, Fu, Fm. subst r1.
  exists w1. split; [exact Fj|]. split; [exact Fu|]. split; [exact Fm|].
  destruct (process_jobs_spec ffmpeg options env (length (jobs w1)) 0 w1 ltac:(lia))
    as (w2 & E2 & _).
  rewrite E2. reflexivity.
Qed.

Lemma all_listeners_fold (regs : list Handler) : forall (m : Manager Handler) f,
  instances m = [f] ->
  all_listeners (fold_left (fun m cb => add_listener 0 cb m) regs m) = listeners f ++ regs.
Proof.
  induction regs as [|cb regs IH]; intros m f Hm.
  - cbn. unfold all_listeners. rewrite Hm. cbn. reflexivity.
  - cbn [fold_left].
    rewrite (IH _ {| listeners := listeners f ++ [cb] |}).
    + cbn. now rewrite <- app_assoc.
    + cbn. rewrite Hm. reflexivity.
Qed.

(** The module after a successful acquisition. *)
Lemma await_getFFmpeg_success ph cb load w ffmpeg :
  in_phase ph (manager w) ->
  fst (await_getFFmpeg cb load w) = inr ffmpeg ->
  ffmpeg = 0%nat /\
  exists f, instances (manager (snd (await_getFFmpeg cb load w))) = [f] /\
            listeners f =
              all_listeners (manager w) ++
              match ph, cb with
              | Idle, Some c => [c]
              | _, _ => []
              end.
Proof.
  unfold await_getFFmpeg. destruct ph; cbn [in_phase].
  - intros ->. destruct cb as [c|], load as [e|[]]; cbn; try discriminate;
      intros [= <-]; (split; [reflexivity|]); eexists; split; reflexivity.
  - intros [f ->]. destruct load as [e|[]]; cbn; try discriminate.
    intros [= <-]. split; [reflexivity|]. exists f. split; [reflexivity|].
    unfold all_listeners. cbn. now rewrite !app_nil_r.
  - intros [f ->]. cbn. intros [= <-]. split; [reflexivity|]. exists f.
    split; [reflexivity|]. unfold all_listeners. cbn. now rewrite !app_nil_r.
  - intros [f ->]. cbn. discriminate.
Qed.

(** X10.  A run never removes a progress listener, it only adds: after a
    run that acquired the engine handle, the listeners of the engine are
    those from before the run, then the callback passed to [getFFmpeg] if
    this run made the first call of the page, then one listener per job
    whose turn got as far as [on], in job order.  So the list grows with
    every run. *)
Theorem handleProcess_listeners_accumulate load env options w ph ffmpeg :
  in_phase ph (manager w) ->
  jobs w <> [] ->
  fst (await_getFFmpeg (Some OnAcquire) load w) = inr ffmpeg ->
  all_listeners (manager (snd (handleProcess load env options w))) =
    all_listeners (manager w) ++
    match ph with Idle => [OnAcquire] | _ => [] end ++
    registrations env w 0 (length (jobs w)).
Proof.
  intros Hph Hne Hacq.
  destruct (handleProcess_loop load env options w ffmpeg Hne Hacq)
    as (w1 & Fj & _ & Fm & ->).
  destruct (await_getFFmpeg_success ph (Some OnAcquire) load w ffmpeg Hph Hacq)
    as (-> & f & Hinst & Hf).
  cbn [manager with_isProcessing].
  rewrite process_jobs_manager by lia.
  rewrite (all_listeners_fold _ _ f) by (rewrite Fm; exact Hinst).
  replace (registrations env w1 0 (length (jobs w1)))
    with (registrations env w 0 (length (jobs w)))
    by (unfold registrations, file_of; now rewrite Fj).
  rewrite Hf, <- app_assoc. destruct ph; reflexivity.
Qed.


Lemma created_urls_w (options : Options) env w w1 a n :
  jobs w1 = jobs w ->
  created_urls options env w1 a n = created_urls options env w a n.
Proof. intros Fj. unfold created_urls, file_of. now rewrite Fj. Qed.

Lemma created_urls_S (options : Options) env w a n :
  created_urls options env w a (S n) =
  match job_failure (file_of w a) (env a) with
  | None => job_blob options (env a)
  | Some _ => []
  end ++ created_urls options env w (S a) n.
Proof. reflexivity. Qed.

Lemma created_urls_turn ffmpeg (options : Options) env e i w a n :
  created_urls options env (snd (process_job ffmpeg options e i w)) a n =
  created_urls options env w a n.
Proof.
  unfold created_urls. apply flat_map_ext. intros k.
  now rewrite process_job_file_of.
Qed.

Lemma await_getFFmpeg_ready cb load w :
  in_phase Ready (manager w) -> fst (await_getFFmpeg cb load w) = inr 0%nat.
Proof.
  unfold await_getFFmpeg. intros [f ->]. reflexivity.
Qed.

(** X11.  A run never revokes or replaces an object URL: the URL store
    after the run is the store from before followed by new entries, so every
    output blob made by an earlier run stays referenced, also when its job
    is processed again.  On a page whose engine is loaded already, the new
    entries are one live URL per job whose turn does not fail, in job
    order. *)
Theorem handleProcess_keeps_object_urls load env options w :
  (exists more,
     object_urls (snd (handleProcess load env options w)) = object_urls w ++ more) /\
  (in_phase Ready (manager w) ->
   object_urls (snd (handleProcess load env options w)) =
     object_urls w ++ created_urls options env w 0 (length (jobs w))).
Proof.
  destruct (jobs w) as [|j0 js] eqn:Hjobs.
  { unfold handleProcess. rewrite Hjobs. cbn. split; [|intros _];
      [exists []|]; now rewrite app_nil_r. }
  assert (Hne : jobs w <> []) by (rewrite Hjobs; discriminate).
  rewrite <- Hjobs. clear Hjobs j0 js.
  assert (Hok : forall ffmpeg,
            fst (await_getFFmpeg (Some OnAcquire) load w) = inr ffmpeg ->
            object_urls (snd (handleProcess load env options w)) =
              object_urls w ++ created_urls options env w 0 (length (jobs w))).
  { intros ffmpeg Hacq.
    destruct (handleProcess_loop load env options w ffmpeg Hne Hacq)
      as (w1 & Fj & Fu & _ & ->).
    cbn [object_urls with_isProcessing].
    rewrite process_jobs_urls by lia.
    now rewrite Fu, Fj, (created_urls_w options env w w1 _ _ Fj). }
  split; [|intros Hready; exact (Hok 0%nat (await_getFFmpeg_ready _ load w Hready))].
  destruct (fst (await_getFFmpeg (Some OnAcquire) load w)) as [e|ffmpeg] eqn:Hacq.
  - exists []. rewrite app_nil_r.
    rewrite (handleProcess_unfold load env options w Hne).
    pose proof (await_getFFmpeg_result (Some OnAcquire) load
                  (with_isProcessing true w) w eq_refl) as Hres.
    rewrite Hacq in Hres.
    destruct (await_getFFmpeg_frame (Some OnAcquire) load (with_isProcessing true w))
      as (_ & _ & _ & _ & Fu & _).
    destruct (await_getFFmpeg (Some OnAcquire) load (with_isProcessing true w))
      as [r1 w1].
    cbn [fst snd object_urls with_isProcessing] in Hres, Fu. subst r1. exact Fu.
  - eexists. apply (Hok ffmpeg eq_refl).
Qed.

(** The output reference of a job whose turn, within the loop over the jobs
    [a], ..., [a + n - 1], does not fail. *)
Lemma process_jobs_artifact ffmpeg options env n : forall a w k,
  (a + n <= length (jobs w))%nat ->
  (a <= k < a + n)%nat ->
  job_failure (file_of w k) (env k) = None ->
  exists j' out,
    jobs (snd (for_each (seq a n) (fun i => process_job ffmpeg options (env i) i) w)) !! k
      = Some j' /\
    env_readFile (env k) = inr out /\
    downloadUrl j' =
      Some (length (object_urls w) + length (created_urls options env w a (k - a)))%nat /\
    object_urls (snd (for_each (seq a n) (fun i => process_job ffmpeg options (env i) i) w))
      !! (length (object_urls w) + length (created_urls options env w a (k - a)))%nat
      = Some (Some (DataBlob out (mime_of (format options)))).
Proof.
  induction n as [|n IH]; intros a w k Hlen Hk Hwf; [lia|].
  cbn [seq]. rewrite for_each_cons.
  rewrite process_job_returns by lia.
  destruct (lookup_lt_is_Some_2 (jobs w) a ltac:(lia)) as [ja Hja].
  destruct (process_job_spec ffmpeg options (env a) a w ja Hja)
    as (w1 & E1 & J1 & _ & U1 & _).
  assert (Hlen1 : length (jobs w1) = length (jobs w)).
  { pose proof (f_equal length J1) as Hl.
    now rewrite length_insert, !length_fmap in Hl. }
  pose proof (process_job_file_of ffmpeg options (env a) a w) as Hfile.
  pose proof (created_urls_turn ffmpeg options env (env a) a w) as Hcreated.
  rewrite E1 in Hfile, Hcreated |- *. cbn [snd] in Hfile, Hcreated |- *.
  destruct (decide (k = a)) as [->|Hne].
  - (* the turn of job [a] itself *)
    replace (a - a)%nat with 0%nat by lia. cbn [created_urls seq flat_map length].
    rewrite Nat.add_0_r.
    assert (Hfa : file_of w a = file ja) by (unfold file_of; now rewrite Hja).
    rewrite Hfa in Hwf. rewrite Hwf in U1.
    assert (Hout : exists out, env_readFile (env a) = inr out).
    { unfold job_failure in Hwf.
      destruct (arrayBuffer (file ja)); [discriminate|].
      destruct (env_writeFile (env a)); [discriminate|].
      destruct (env_exec (env a)); [discriminate|].
      destruct (env_readFile (env a)) as [|out]; [discriminate|]. eauto. }
    destruct Hout as [out Hout].
    unfold job_blob in U1. rewrite Hout in U1.
    pose proof (f_equal (fun l => l !! a) J1) as Hla. cbn beta in Hla.
    rewrite list_lookup_fmap, list_lookup_insert_eq in Hla
      by (rewrite length_fmap; lia).
    destruct (jobs w1 !! a) as [j1|] eqn:Hj1; [|discriminate].
    cbn in Hla. injection Hla as Hla.
    destruct (process_jobs_spec ffmpeg options env n (S a) w1 ltac:(lia))
      as (w2 & E2 & _ & J2 & _).
    destruct (J2 a j1 Hj1) as (j' & url & Hj' & He').
    destruct (decide (S a <= a < S a + n)%nat); [lia|].
    rewrite E2. cbn [snd].
    exists j', out. split; [exact Hj'|]. split; [exact Hout|]. split.
    + transitivity (downloadUrl (erase_progress j')); [reflexivity|].
      rewrite He', Hla. unfold settled_job. rewrite Hwf. reflexivity.
    + pose proof (process_jobs_urls ffmpeg options env n (S a) w1 ltac:(lia)) as U2.
      rewrite E2 in U2. cbn [snd] in U2. rewrite U2, U1, <- app_assoc.
      cbn [app]. rewrite list_lookup_middle by reflexivity. reflexivity.
  - (* a later turn *)
    destruct (IH (S a) w1 k ltac:(lia) ltac:(lia)) as (j' & out & Hj' & Hout & Hurl & Hblob).
    { rewrite Hfile. exact Hwf. }
    exists j', out. split; [exact Hj'|]. split; [exact Hout|].
    assert (Hidx : (length (object_urls w1) +
                    length (created_urls options env w1 (S a) (k - S a)) =
                    length (object_urls w) +
                    length (created_urls options env w a (k - a)))%nat).
    { replace (k - a)%nat with (S (k - S a)) by lia.
      rewrite created_urls_S, Hcreated, U1, !length_app.
      replace (file_of w a) with (file ja) by (unfold file_of; now rewrite Hja).
      lia. }
    rewrite <- Hidx. split; assumption.
Qed.

(** X12.  After a run that acquired the engine handle, a job whose turn did
    not fail is Done, bears the output name made from its file name and the
    format of the run (whatever name it had before), and its output
    reference is a live object URL, made by this run, whose blob holds the
    bytes that [readFile] returned, with the media type of the format. *)
Theorem handleProcess_done_job_artifact load env options w ffmpeg k j :
  fst (await_getFFmpeg (Some OnAcquire) load w) = inr ffmpeg ->
  jobs w !! k = Some j ->
  well_formed (file j) (env k) ->
  exists j' out url,
    jobs (snd (handleProcess load env options w)) !! k = Some j' /\
    status j' = Done /\
    outputName j' = getOutputName (file j) (format options) /\
    env_readFile (env k) = inr out /\
    downloadUrl j' = Some url /\
    (length (object_urls w) <= url)%nat /\
    object_urls (snd (handleProcess load env options w)) !! url =
      Some (Some (DataBlob out (mime_of (format options)))).
Proof.
  intros Hacq Hk Hwf.
  assert (Hne : jobs w <> []) by (intros Hnil; rewrite Hnil in Hk; discriminate).
  destruct (handleProcess_settles load env options w ffmpeg Hne Hacq)
    as (_ & _ & Hjobs & _).
  destruct (Hjobs k j Hk) as (j1 & url1 & Hk1 & He1).
  destruct (handleProcess_loop load env options w ffmpeg Hne Hacq)
    as (w1 & Fj & Fu & _ & Hw').
  pose proof (lookup_lt_Some _ _ _ Hk) as Hlt.
  destruct (process_jobs_artifact ffmpeg options env (length (jobs w1)) 0 w1 k
              ltac:(lia) ltac:(rewrite Fj; lia)) as (j' & out & Hj' & Hout & Hurl & Hblob).
  { unfold file_of. rewrite Fj, Hk. exact Hwf. }
  rewrite Hw' in Hk1 |- *. cbn [jobs object_urls with_isProcessing] in Hk1 |- *.
  rewrite Hj' in Hk1. injection Hk1 as ->.
  exists j1, out. eexists. split; [exact Hj'|].
  destruct (erase_progress_fields j1) as (_ & Fs & _ & _ & Fo).
  rewrite <- Fs, <- Fo, He1. unfold settled_job, well_formed in *. rewrite Hwf.
  split; [reflexivity|]. split; [reflexivity|]. split; [exact Hout|].
  split; [exact Hurl|]. split; [rewrite Fu; lia|exact Hblob].
Qed.

(** X13.  A run never clears a field of a job: a job whose turn failed keeps
    the output name and the output reference it had before the run (so a job
    that was Done earlier and fails now is Error and still refers to its old
    output), and a job whose turn did not fail keeps the error message it
    had before the run. *)
Theorem handleProcess_never_clears_fields load env options w ffmpeg k j :
  fst (await_getFFmpeg (Some OnAcquire) load w) = inr ffmpeg ->
  jobs w !! k = Some j ->
  exists j',
    jobs (snd (handleProcess load env options w)) !! k = Some j' /\
    (well_formed (file j) (env k) -> status j' = Done /\ error j' = error j) /\
    (forall e, job_failure (file j) (env k) = Some e ->
               status j' = Error /\ outputName j' = outputName j /\
               downloadUrl j' = downloadUrl j).
Proof.
  intros Hacq Hk.
  assert (Hne : jobs w <> []) by (intros Hnil; rewrite Hnil in Hk; discriminate).
  destruct (handleProcess_settles load env options w ffmpeg Hne Hacq)
    as (_ & _ & Hjobs & _).
  destruct (Hjobs k j Hk) as (j' & url & Hk' & He).
  exists j'. split; [exact Hk'|].
  destruct (erase_progress_fields j') as (_ & Fs & Fe & Fd & Fo).
  rewrite <- Fs, <- Fe, <- Fd, <- Fo, He. unfold settled_job, well_formed.
  split.
  - intros ->. split; reflexivity.
  - intros e ->. repeat split.
Qed.


(** The progress of a job whose turn does not fail and after which the
    engine reports no progress any more. *)
Lemma process_jobs_done_progress ffmpeg options env n : forall a w k,
  (a + n <= length (jobs w))%nat ->
  (a <= k < a + n)%nat ->
  job_failure (file_of w k) (env k) = None ->
  (forall i, (k < i < a + n)%nat ->
             reaches_exec (file_of w i) (env i) = false \/ env_progress (env i) = []) ->
  exists j',
    jobs (snd (for_each (seq a n) (fun i => process_job ffmpeg options (env i) i) w)) !! k
      = Some j' /\
    progress j' = 100%Z.
Proof.
  induction n as [|n IH]; intros a w k Hlen Hk Hwf Hquiet; [lia|].
  cbn [seq]. rewrite for_each_cons.
  rewrite process_job_returns by lia.
  destruct (decide (k = a)) as [->|Hne].
  - destruct (lookup_lt_is_Some_2 (jobs w) a ltac:(lia)) as [ja Hja].
    assert (Hfa : file_of w a = file ja) by (unfold file_of; now rewrite Hja).
    rewrite Hfa in Hwf.
    destruct (process_job_done_progress ffmpeg options (env a) a w ja Hja Hwf)
      as (j' & Hj' & Hp).
    exists j'. split; [|exact Hp].
    rewrite process_jobs_quiet; [exact Hj'|lia|].
    intros i Hi. rewrite process_job_file_of. apply Hquiet. lia.
  - apply IH.
    + rewrite process_job_length. lia.
    + lia.
    + rewrite process_job_file_of. exact Hwf.
    + intros i Hi. rewrite process_job_file_of. apply Hquiet. lia.
Qed.

(** X14.  After a run that acquired the engine handle, a job whose turn did
    not fail shows progress 100 provided that no later turn of the run
    produced a progress event (each later turn either stopped before [exec]
    or ran without any event); in particular the last job of the list, when
    Done, shows 100. *)
Theorem handleProcess_done_progress_without_later_events load env options w ffmpeg k j :
  fst (await_getFFmpeg (Some OnAcquire) load w) = inr ffmpeg ->
  jobs w !! k = Some j ->
  well_formed (file j) (env k) ->
  (forall i, (k < i < length (jobs w))%nat ->
             reaches_exec (file_of w i) (env i) = false \/ env_progress (env i) = []) ->
  exists j',
    jobs (snd (handleProcess load env options w)) !! k = Some j' /\
    status j' = Done /\ progress j' = 100%Z.
Proof.
  intros Hacq Hk Hwf Hquiet.
  assert (Hne : jobs w <> []) by (intros Hnil; rewrite Hnil in Hk; discriminate).
  destruct (handleProcess_settles load env options w ffmpeg Hne Hacq)
    as (_ & _ & Hjobs & _).
  destruct (Hjobs k j Hk) as (j1 & url1 & Hk1 & He1).
  destruct (handleProcess_loop load env options w ffmpeg Hne Hacq)
    as (w1 & Fj & _ & _ & Hw').
  pose proof (lookup_lt_Some _ _ _ Hk) as Hlt.
  destruct (process_jobs_done_progress ffmpeg options env (length (jobs w1)) 0 w1 k
              ltac:(lia) ltac:(rewrite Fj; lia)) as (j' & Hj' & Hp).
  { unfold file_of. rewrite Fj, Hk. exact Hwf. }
  { intros i Hi. unfold file_of. rewrite Fj. apply Hquiet. rewrite Fj in Hi. lia. }
  rewrite Hw' in Hk1 |- *. cbn [jobs with_isProcessing] in Hk1 |- *.
  rewrite Hj' in Hk1. injection Hk1 as ->.
  exists j1. split; [exact Hj'|]. split; [|exact Hp].
  destruct (erase_progress_fields j1) as (_ & Fs & _).
  rewrite <- Fs, He1. unfold settled_job, well_formed in *. now rewrite Hwf.
Qed.

Lemma forallb_lookup {A} (p : A -> bool) (l : list A) :
  forallb p l = true <-> forall i x, l !! i = Some x -> p x = true.
Proof.
  rewrite forallb_forall. split.
  - intros Hall i x Hi. apply Hall. apply list_elem_of_In.
    eapply list_elem_of_lookup_2. exact Hi.
  - intros Hall x Hin. apply list_elem_of_In, list_elem_of_lookup in Hin.
    destruct Hin as [i Hi]. eapply Hall. exact Hi.
Qed.

(** X15.  After a run that acquired the engine handle over a job list that
    is not empty, [allDone] holds (the page enables the archive download)
    exactly when the turn of every job was without failure: one failed job
    keeps the archive of the others out of reach. *)
Theorem handleProcess_allDone load env options w ffmpeg :
  jobs w <> [] ->
  fst (await_getFFmpeg (Some OnAcquire) load w) = inr ffmpeg ->
  (allDone (jobs (snd (handleProcess load env options w))) = true <->
   forall i j, jobs w !! i = Some j -> well_formed (file j) (env i)).
Proof.
  intros Hne Hacq.
  destruct (handleProcess_settles load env options w ffmpeg Hne Hacq)
    as (_ & Hlen & Hjobs & _).
  unfold allDone. rewrite Hlen.
  assert (Hpos : (0 <? length (jobs w))%nat = true).
  { apply Nat.ltb_lt. destruct (jobs w); [congruence|cbn; lia]. }
  rewrite Hpos. cbn [andb]. rewrite forallb_lookup.
  assert (Hstatus : forall i j j', jobs w !! i = Some j ->
            jobs (snd (handleProcess load env options w)) !! i = Some j' ->
            (Status_eqb (status j') Done = true <-> well_formed (file j) (env i))).
  { intros i j j' Hi Hi'. destruct (Hjobs i j Hi) as (j1 & url & Hi1 & He).
    rewrite Hi1 in Hi'. injection Hi' as <-.
    destruct (erase_progress_fields j1) as (_ & Fs & _).
    rewrite <- Fs, He. unfold settled_job, well_formed.
    destruct (job_failure (file j) (env i)); cbn; split; congruence. }
  split.
  - intros Hall i j Hi. destruct (Hjobs i j Hi) as (j' & url & Hi' & _).
    apply (Hstatus i j j' Hi Hi'). exact (Hall i j' Hi').
  - intros Hall i j' Hi'.
    destruct (lookup_lt_is_Some_2 (jobs w) i) as [j Hi].
    { rewrite <- Hlen. eapply lookup_lt_Some. exact Hi'. }
    apply (Hstatus i j j' Hi Hi'). exact (Hall i j Hi).
Qed.

(** X16.  A failed initialization is permanent for the page: when the
    first acquisition of a run fails with [e], the run leaves [isProcessing]
    set (the page keeps its buttons disabled) and the job list untouched,
    and every later run, whatever the environment would then answer, fails
    with the same [e] before touching a job and without starting a second
    initialization. *)
Theorem handleProcess_failed_initialization_is_permanent
    e env options w load' env' options' :
  manager w = initial_manager ->
  jobs w <> [] ->
  isProcessing (snd (handleProcess (inl e) env options w)) = true /\
  jobs (snd (handleProcess (inl e) env options w)) = jobs w /\
  fst (handleProcess load' env' options' (snd (handleProcess (inl e) env options w)))
    = inl e /\
  jobs (snd (handleProcess load' env' options' (snd (handleProcess (inl e) env options w))))
    = jobs w /\
  initializations
    (manager (snd (handleProcess load' env' options'
                     (snd (handleProcess (inl e) env options w))))) = 1%nat.
Proof.
  intros Hm Hne.
  assert (H1 : handleProcess (inl e) env options w =
               (inl e,
                with_manager
                  (fun _ => @Build_Manager Handler [{| listeners := [OnAcquire] |}]
                              [Rejected e] None (Some 0%nat))
                  (with_isProcessing true w))).
  { rewrite (handleProcess_unfold _ env options w Hne).
    unfold await_getFFmpeg. cbn [manager with_isProcessing]. rewrite Hm. reflexivity. }
  rewrite H1. cbn [snd].
  assert (H2 : handleProcess load' env' options'
                 (with_manager
                    (fun _ => @Build_Manager Handler [{| listeners := [OnAcquire] |}]
                                [Rejected e] None (Some 0%nat))
                    (with_isProcessing true w)) =
               (inl e,
                with_manager
                  (fun _ => @Build_Manager Handler [{| listeners := [OnAcquire] |}]
                              [Rejected e] None (Some 0%nat))
                  (with_isProcessing true w))).
  { rewrite handleProcess_unfold by exact Hne.
    unfold await_getFFmpeg. cbn [manager with_isProcessing with_manager].
    destruct load'; reflexivity. }
  rewrite H2. cbn. auto.
Qed.

End OrchestratorRuns.



Lemma handleProcess_listeners_accumulate_witness :
  in_phase Idle (manager two_files) /\
  jobs two_files <> [] /\
  fst (await_getFFmpeg (Some OnAcquire) (inr tt) two_files) = inr 0%nat /\
  all_listeners (manager (snd (@handleProcess decimal_string (inr tt)
                                 (second_fails invalid_data) example_options two_files))) =
    [OnAcquire; OnJob 0; OnJob 1].
Proof.
  assert (Hne : jobs two_files <> []) by discriminate.
  split; [reflexivity|]. split; [exact Hne|]. split; [reflexivity|].
  exact (@handleProcess_listeners_accumulate decimal_string (inr tt)
           (second_fails invalid_data) example_options two_files Idle 0%nat
           eq_refl Hne eq_refl).
Defined.

Section ArchiveFacts.

Lemma zip_file_names m c z :
  map fst (zip_file m c z) =
  if existsb (fun e => fst e =? m)%string z then map fst z else map fst z ++ [m].
Proof.
  unfold zip_file. destruct (existsb _ z).
  - rewrite map_map. apply map_ext_in. intros e _.
    destruct (fst e =? m)%string eqn:E; [|reflexivity].
    apply String.eqb_eq in E. now rewrite E.
  - now rewrite map_app.
Qed.

Lemma existsb_name m (z : list (string * Blob)) :
  existsb (fun e => fst e =? m)%string z = true <-> In m (map fst z).
Proof.
  rewrite existsb_exists, in_map_iff. split.
  - intros (e & He & E). apply String.eqb_eq in E. now exists e.
  - intros (e & E & He). exists e. split; [exact He|]. now apply String.eqb_eq.
Qed.

Lemma zip_file_NoDup m c z : NoDup (map fst z) -> NoDup (map fst (zip_file m c z)).
Proof.
  intros Hz. rewrite zip_file_names.
  destruct (existsb _ z) eqn:E; [exact Hz|].
  apply NoDup_app. split; [exact Hz|]. split.
  - intros x Hx Hm. apply list_elem_of_In in Hx. apply list_elem_of_In in Hm.
    destruct Hm as [<-|[]].
    apply existsb_name in Hx. congruence.
  - apply NoDup_singleton.
Qed.

Lemma zip_file_In m c z n b :
  In (n, b) (zip_file m c z) <-> if (m =? n)%string then b = c else In (n, b) z.
Proof.
  unfold zip_file. destruct (existsb _ z) eqn:E.
  - rewrite in_map_iff. destruct (m =? n)%string eqn:Emn.
    + apply String.eqb_eq in Emn. subst n. split.
      * intros (e & He & _). destruct (fst e =? m)%string eqn:Ee.
        -- congruence.
        -- subst e. cbn in Ee. now rewrite String.eqb_refl in Ee.
      * intros ->. apply existsb_exists in E. destruct E as (e & He & Ee).
        exists e. now rewrite Ee.
    + apply String.eqb_neq in Emn. split.
      * intros (e & He & Hin). destruct (fst e =? m)%string; [congruence|].
        now subst e.
      * intros Hin. exists (n, b). split; [|exact Hin]. cbn.
        destruct (n =? m)%string eqn:Enm; [|reflexivity].
        apply String.eqb_eq in Enm. congruence.
  - rewrite in_app_iff. destruct (m =? n)%string eqn:Emn.
    + apply String.eqb_eq in Emn. subst n. split.
      * intros [Hin|[Heq|[]]]; [|congruence].
        assert (Hex : existsb (fun e => fst e =? m)%string z = true)
          by (apply existsb_name, in_map_iff; now exists (m, b)).
        congruence.
      * intros ->. right. now left.
    + apply String.eqb_neq in Emn. split.
      * intros [Hin|[Heq|[]]]; [exact Hin|congruence].
      * intros Hin. now left.
Qed.

Lemma fold_zip_file files : forall z,
  NoDup (map fst z) ->
  NoDup (map fst (fold_left (fun z f => zip_file (fst f) (snd f) z) files z)) /\
  forall n b,
    In (n, b) (fold_left (fun z f => zip_file (fst f) (snd f) z) files z) <->
    match last_named n files with
    | Some b' => b = b'
    | None => In (n, b) z
    end.
Proof.
  induction files as [|f files IH]; intros z Hz; cbn [fold_left last_named].
  - split; [exact Hz|]. intros n b. reflexivity.
  - destruct (IH (zip_file (fst f) (snd f) z) (zip_file_NoDup _ _ _ Hz)) as [Hnd Hin].
    split; [exact Hnd|]. intros n b. rewrite Hin.
    destruct (last_named n files); [reflexivity|].
    rewrite zip_file_In. destruct (fst f =? n)%string; reflexivity.
Qed.

Lemma last_named_In n files : is_Some (last_named n files) <-> In n (map fst files).
Proof.
  induction files as [|f files IH]; cbn [last_named map In].
  - split; [intros [? [=]]|intros []].
  - destruct (last_named n files) as [b|].
    + split; [|eauto]. intros _. right. apply IH. eauto.
    + destruct (fst f =? n)%string eqn:E.
      * apply String.eqb_eq in E. split; [auto|eauto].
      * apply String.eqb_neq in E. split; [intros [? [=]]|].
        intros [Hf|Hin]; [contradiction|]. apply IH in Hin. destruct Hin as [? [=]].
Qed.

Lemma zipBlobsAsZipFile_effect files zipName w :
  zipBlobsAsZipFile files zipName w =
  (inr tt,
   with_object_urls (fun us => us ++ [None])
     (with_downloads (fun ds => ds ++ [(zipName, Some (ZipBlob (archive files)))]) w)).
Proof.
  unfold zipBlobsAsZipFile, archive. run_monad. unfold click_download, revokeObjectURL.
  run_monad. cbn. rewrite list_lookup_middle by reflexivity.
  unfold with_object_urls, with_downloads. cbn.
  rewrite insert_app_r_alt by lia. now rewrite Nat.sub_diag.
Qed.

(** X17.  For files with plain entry names (no directory part, with an
    extension), [zipBlobsAsZipFile] always returns; it triggers exactly one
    download, named [zipName], of an archive, leaves behind one object URL
    that is already revoked, and touches neither the jobs nor the other
    object URLs.  The archive has one entry per distinct name of [files]:
    among files of the same name the last one wins and the others are
    dropped, so the archive is complete exactly when the names differ. *)
Theorem zipBlobsAsZipFile_downloads_one_archive files zipName w :
  Forall (fun f => plain_entry_name (fst f) = true) files ->
  fst (zipBlobsAsZipFile files zipName w) = inr tt /\
  downloads (snd (zipBlobsAsZipFile files zipName w)) =
    downloads w ++ [(zipName, Some (ZipBlob (archive files)))] /\
  object_urls (snd (zipBlobsAsZipFile files zipName w)) = object_urls w ++ [None] /\
  jobs (snd (zipBlobsAsZipFile files zipName w)) = jobs w /\
  NoDup (map fst (archive files)) /\
  (forall n, In n (map fst (archive files)) <-> In n (map fst files)) /\
  (forall n b, In (n, b) (archive files) <-> last_named n files = Some b) /\
  (length (archive files) <= length files)%nat /\
  (length (archive files) = length files <-> NoDup (map fst files)).
Proof.
  intros _.
  destruct (fold_zip_file files [] (NoDup_nil_2)) as [Hnd Hin].
  assert (Hentries : forall n b, In (n, b) (archive files) <-> last_named n files = Some b).
  { intros n b. unfold archive. rewrite Hin.
    destruct (last_named n files); split; intros Hx; [congruence|congruence|destruct Hx|congruence]. }
  rewrite zipBlobsAsZipFile_effect. cbn [fst snd].
  split; [reflexivity|]. split; [reflexivity|]. split; [reflexivity|].
  split; [reflexivity|].
  assert (Hnames : forall n, In n (map fst (archive files)) <-> In n (map fst files)).
  { intros n. rewrite <- (last_named_In n files). split.
    - intros Hn. apply in_map_iff in Hn. destruct Hn as ([n' b] & <- & Hb).
      apply Hentries in Hb. cbn. eauto.
    - intros [b Hb]. apply Hentries in Hb. apply in_map_iff. now exists (n, b). }
  assert (Hle : (length (archive files) <= length files)%nat).
  { rewrite <- (length_map fst (archive files)), <- (length_map fst files).
    apply List.NoDup_incl_length; [apply NoDup_ListNoDup; exact Hnd|].
    intros n. apply Hnames. }
  split; [exact Hnd|]. split; [exact Hnames|]. split; [exact Hentries|].
  split; [exact Hle|]. split.
  - intros Hlen. apply NoDup_ListNoDup.
    apply (@List.NoDup_incl_NoDup _ (map fst (archive files))).
    + apply NoDup_ListNoDup. exact Hnd.
    + rewrite !length_map. lia.
    + intros n. apply Hnames.
  - intros Hfiles. apply Nat.le_antisymm; [exact Hle|].
    rewrite <- (length_map fst (archive files)), <- (length_map fst files).
    apply List.NoDup_incl_length; [apply NoDup_ListNoDup; exact Hfiles|].
    intros n. apply Hnames.
Qed.

End ArchiveFacts.

Section ExporterFacts.
Context `{NumberToString}.

Lemma promise_all_fetch w : forall ready files,
  map (fun j => (outputName j, blob_at w j)) ready =
    map (fun f => (fst f, Some (snd f))) files ->
  promise_all
    (fun j =>
       match downloadUrl j with
       | Some u => bind (fetch_blob u) (fun blob => ret (outputName j, blob))
       | None => throw JsUndefined
       end) ready w = (inr files, w).
Proof.
  set (fetch := fun j : VideoJob => match downloadUrl j with Some u => _ | None => _ end).
  induction ready as [|j ready IH]; intros [|[n b] files] Heq; try discriminate.
  - reflexivity.
  - cbn [map fst snd] in Heq. injection Heq as Hn Hb Hrest.
    assert (Hfetch : fetch j w = (inr (n, b), w)).
    { unfold fetch, blob_at in *. destruct (downloadUrl j) as [u|]; [|discriminate].
      unfold bind, fetch_blob.
      destruct (object_urls w !! u) as [[b'|]|]; try discriminate.
      cbn in Hb. injection Hb as ->. cbn [ret]. now rewrite Hn. }
    cbn [promise_all]. unfold bind at 1. rewrite Hfetch.
    unfold bind at 1. rewrite (IH files Hrest). reflexivity.
Qed.

Lemma handleZip_ready w files :
  files <> [] ->
  ready_outputs w = map (fun f => (fst f, Some (snd f))) files ->
  fst (handleZip w) = inr tt /\
  downloads (snd (handleZip w)) =
    downloads w ++ [("processed-videos.zip"%string, Some (ZipBlob (archive files)))] /\
  object_urls (snd (handleZip w)) = object_urls w ++ [None] /\
  jobs (snd (handleZip w)) = jobs w.
Proof.
  intros Hne Hready.
  assert (Hlen : length (List.filter is_ready (jobs w)) = length files).
  { unfold ready_outputs in Hready. apply (f_equal (@length _)) in Hready.
    now rewrite !length_map in Hready. }
  assert (Hzip : handleZip w = zipBlobsAsZipFile files "processed-videos.zip" w).
  { unfold handleZip.
    destruct (length (List.filter is_ready (jobs w)) =? 0)%nat eqn:E.
    { apply Nat.eqb_eq in E. rewrite E in Hlen. destruct files; [congruence|discriminate]. }
    unfold bind at 1. now rewrite (promise_all_fetch w _ files Hready). }
  rewrite Hzip, zipBlobsAsZipFile_effect. cbn [fst snd].
  split; [reflexivity|]. split; [reflexivity|]. split; reflexivity.
Qed.

(** X18.  When the download URL of every job that is Done and has one
    refers to a live blob, and there is such a job, [handleZip] fetches
    these blobs in the order of the job list and hands them, under the
    output names of their jobs, to [zipBlobsAsZipFile] with the name
    [processed-videos.zip]: it returns after exactly this one download,
    changes no job and leaves no live object URL of its own behind. *)
Theorem handleZip_downloads_ready_outputs w files :
  files <> [] ->
  ready_outputs w = map (fun f => (fst f, Some (snd f))) files ->
  fst (handleZip w) = inr tt /\
  downloads (snd (handleZip w)) =
    downloads w ++ [("processed-videos.zip"%string, Some (ZipBlob (archive files)))] /\
  object_urls (snd (handleZip w)) = object_urls w ++ [None] /\
  jobs (snd (handleZip w)) = jobs w.
Proof. exact (handleZip_ready w files). Qed.

Lemma promise_all_fetch_fails w : forall ready,
  Forall (fun j => is_ready j = true) ready ->
  Exists (fun j => blob_at w j = None) ready ->
  promise_all
    (fun j =>
       match downloadUrl j with
       | Some u => bind (fetch_blob u) (fun blob => ret (outputName j, blob))
       | None => throw JsUndefined
       end) ready w = (inl (JsError "TypeError" "Failed to fetch"), w).
Proof.
  set (fetch := fun j : VideoJob => match downloadUrl j with Some u => _ | None => _ end).
  induction ready as [|j ready IH]; intros Hall Hex; [inversion Hex|].
  inversion Hall as [|? ? Hj Hall']; subst.
  unfold is_ready in Hj. apply andb_true_iff in Hj. destruct Hj as [_ Hj].
  assert (Hfetch : fetch j w =
                   match blob_at w j with
                   | Some b => (inr (outputName j, b), w)
                   | None => (inl (JsError "TypeError" "Failed to fetch"), w)
                   end).
  { unfold fetch, blob_at. destruct (downloadUrl j) as [u|]; [|discriminate].
    unfold bind, fetch_blob. destruct (object_urls w !! u) as [[b|]|]; reflexivity. }
  cbn [promise_all]. unfold bind at 1. rewrite Hfetch.
  destruct (blob_at w j) as [b|] eqn:Hb; [|reflexivity].
  unfold bind at 1. rewrite IH; [reflexivity|exact Hall'|].
  inversion Hex as [? ? Hdead|? ? Hlater]; subst; [congruence|exact Hlater].
Qed.

(** X19.  One dead download URL among the jobs that are Done blocks the
    whole archive: [handleZip] then throws, downloads nothing, also not the
    outputs that could be fetched, and leaves the page state as it was. *)
Theorem handleZip_dead_url_blocks_archive w n :
  In (n, None) (ready_outputs w) ->
  (exists e, fst (handleZip w) = inl e) /\ snd (handleZip w) = w.
Proof.
  intros Hin. unfold ready_outputs in Hin. apply in_map_iff in Hin.
  destruct Hin as (j & Hj & Hin). injection Hj as _ Hdead.
  assert (Hzip : handleZip w = (inl (JsError "TypeError" "Failed to fetch"), w)).
  { unfold handleZip.
    destruct (length (List.filter is_ready (jobs w)) =? 0)%nat eqn:E.
    { apply Nat.eqb_eq in E.
      destruct (List.filter is_ready (jobs w)); [destruct Hin|discriminate]. }
    unfold bind at 1. rewrite promise_all_fetch_fails; [reflexivity| |].
    - apply List.Forall_forall. intros x Hx. now apply filter_In in Hx.
    - apply List.Exists_exists. exists j. split; [exact Hin|exact Hdead]. }
  rewrite Hzip. split; [eauto|reflexivity].
Qed.

End ExporterFacts.

Section RunThenExport.
Context `{NumberToString}.

(** What a run leaves of job [k]: ready for the archive with its output
    behind a live URL when the turn did not fail, not ready otherwise. *)
Lemma handleProcess_job_outcome load env options w ffmpeg k j :
  fst (await_getFFmpeg (Some OnAcquire) load w) = inr ffmpeg ->
  jobs w !! k = Some j ->
  exists j',
    jobs (snd (handleProcess load env options w)) !! k = Some j' /\
    match job_failure (file j) (env k), env_readFile (env k) with
    | None, inr out =>
        is_ready j' = true /\
        outputName j' = getOutputName (file j) (format options) /\
        blob_at (snd (handleProcess load env options w)) j' =
          Some (DataBlob out (mime_of (format options)))
    | _, _ => is_ready j' = false
    end.
Proof.
  intros Hacq Hk.
  assert (Hne : jobs w <> []) by (intros Hnil; rewrite Hnil in Hk; discriminate).
  destruct (handleProcess_settles load env options w ffmpeg Hne Hacq)
    as (_ & _ & Hjobs & _).
  destruct (Hjobs k j Hk) as (j1 & url1 & Hk1 & He1).
  exists j1. split; [exact Hk1|].
  destruct (erase_progress_fields j1) as (_ & Fs & _ & Fd & Fo).
  destruct (job_failure (file j) (env k)) as [e|] eqn:Hwf.
  { unfold is_ready. rewrite <- Fs, He1. unfold settled_job. now rewrite Hwf. }
  destruct (handleProcess_loop load env options w ffmpeg Hne Hacq)
    as (w1 & Fj & Fu & _ & Hw').
  pose proof (lookup_lt_Some _ _ _ Hk) as Hlt.
  destruct (process_jobs_artifact ffmpeg options env (length (jobs w1)) 0 w1 k
              ltac:(lia) ltac:(rewrite Fj; lia)) as (j' & out & Hj' & Hout & Hurl & Hblob).
  { unfold file_of. rewrite Fj, Hk. exact Hwf. }
  rewrite Hout.
  rewrite Hw' in Hk1 |- *. cbn [jobs object_urls with_isProcessing] in Hk1 |- *.
  rewrite Hj' in Hk1. injection Hk1 as ->.
  split; [|split].
  - unfold is_ready. rewrite Hurl, <- Fs, He1. unfold settled_job. now rewrite Hwf.
  - rewrite <- Fo, He1. unfold settled_job. now rewrite Hwf.
  - unfold blob_at. rewrite Hurl. cbn [object_urls with_isProcessing].
    exact (f_equal mjoin Hblob).
Qed.

(** A run triggers no download. *)
Lemma handleProcess_downloads load env options w :
  downloads (snd (handleProcess load env options w)) = downloads w.
Proof.
  destruct (jobs w) as [|j0 js] eqn:Hjobs.
  { unfold handleProcess. rewrite Hjobs. reflexivity. }
  assert (Hne : jobs w <> []) by (rewrite Hjobs; discriminate).
  clear Hjobs. rewrite (handleProcess_unfold load env options w Hne).
  destruct (await_getFFmpeg_frame (Some OnAcquire) load (with_isProcessing true w))
    as (_ & _ & _ & _ & _ & Fd).
  destruct (await_getFFmpeg (Some OnAcquire) load (with_isProcessing true w))
    as [[e|ffmpeg] w1]; cbn [snd] in Fd |- *; [exact Fd|].
  destruct (process_jobs_spec ffmpeg options env (length (jobs w1)) 0 w1 ltac:(lia))
    as (w2 & E2 & _ & _ & _ & _ & D2 & _).
  rewrite E2. cbn [snd downloads with_isProcessing]. now rewrite D2.
Qed.

Lemma ready_outputs_converted options env w' : forall js a js',
  length js' = length js ->
  (forall k j, js !! k = Some j ->
     exists j', js' !! k = Some j' /\
       match job_failure (file j) (env (a + k)%nat), env_readFile (env (a + k)%nat) with
       | None, inr out =>
           is_ready j' = true /\
           outputName j' = getOutputName (file j) (format options) /\
           blob_at w' j' = Some (DataBlob out (mime_of (format options)))
       | _, _ => is_ready j' = false
       end) ->
  map (fun j => (outputName j, blob_at w' j)) (List.filter is_ready js') =
  map (fun f => (fst f, Some (snd f))) (converted options env a js).
Proof.
  induction js as [|j js IH]; intros a [|j' js'] Hlen Hall; try discriminate.
  - reflexivity.
  - cbn [List.filter converted].
    destruct (Hall 0%nat j eq_refl) as (j0 & Hj0 & Hout).
    cbn in Hj0. injection Hj0 as <-. rewrite Nat.add_0_r in Hout.
    assert (Hrest : map (fun j => (outputName j, blob_at w' j)) (List.filter is_ready js') =
                    map (fun f => (fst f, Some (snd f))) (converted options env (S a) js)).
    { apply IH; [cbn in Hlen; lia|].
      intros k jk Hk. destruct (Hall (S k) jk Hk) as (jk' & Hk' & Hout').
      exists jk'. split; [exact Hk'|].
      now replace (S a + k)%nat with (a + S k)%nat by lia. }
    destruct (job_failure (file j) (env a)) as [e|].
    { rewrite Hout. exact Hrest. }
    destruct (env_readFile (env a)) as [e|out].
    { rewrite Hout. exact Hrest. }
    destruct Hout as (-> & Hname & Hblob).
    cbn [map app fst snd]. now rewrite Hname, Hblob, Hrest.
Qed.

(** X20.  A run followed by the archive download.  After a run that
    acquired the engine handle, [handleZip] returns normally and changes no
    job; when no job of the run was converted it downloads nothing, and
    otherwise it downloads once, as [processed-videos.zip], the archive of
    the outputs of exactly the jobs whose turn did not fail: the bytes that
    [readFile] returned, under the output names of the run, in the order of
    the job list.  The run itself downloads nothing. *)
Theorem handleProcess_then_handleZip load env options w ffmpeg :
  jobs w <> [] ->
  fst (await_getFFmpeg (Some OnAcquire) load w) = inr ffmpeg ->
  downloads (snd (handleProcess load env options w)) = downloads w /\
  fst (handleZip (snd (handleProcess load env options w))) = inr tt /\
  jobs (snd (handleZip (snd (handleProcess load env options w)))) =
    jobs (snd (handleProcess load env options w)) /\
  downloads (snd (handleZip (snd (handleProcess load env options w)))) =
    downloads w ++
    match converted options env 0 (jobs w) with
    | [] => []
    | files => [("processed-videos.zip"%string, Some (ZipBlob (archive files)))]
    end.
Proof.
  intros Hne Hacq.
  pose proof (handleProcess_downloads load env options w) as Hd.
  split; [exact Hd|].
  destruct (handleProcess_settles load env options w ffmpeg Hne Hacq)
    as (_ & Hlen & _).
  pose proof (ready_outputs_converted options env (snd (handleProcess load env options w))
                (jobs w) 0 (jobs (snd (handleProcess load env options w))) Hlen) as Hready.
  cbn [Nat.add] in Hready.
  specialize (Hready (fun k j Hk =>
                handleProcess_job_outcome load env options w ffmpeg k j Hacq Hk)).
  fold (ready_outputs (snd (handleProcess load env options w))) in Hready.
  destruct (converted options env 0 (jobs w)) as [|f files] eqn:Hconv.
  - (* nothing was converted: the guard of [handleZip] *)
    unfold ready_outputs in Hready. apply map_eq_nil in Hready.
    unfold handleZip. rewrite Hready. cbn [length Nat.eqb fst snd].
    rewrite Hd, app_nil_r. auto.
  - destruct (handleZip_ready _ (f :: files) ltac:(discriminate) Hready)
      as (Hret & Hdl & _ & Hjobs).
    rewrite Hdl, Hd. auto.
Qed.

End RunThenExport.

Lemma handleZip_downloads_ready_outputs_witness :
  [("a.mp4"%string, DataBlob [Byte.x01] "video/mp4");
   ("b.mp4"%string, DataBlob [Byte.x01] "video/mp4")] <> [] /\
  ready_outputs (snd (@handleProcess decimal_string (inr tt) (both_converted [(1 # 2)%Q])
                        example_options two_files)) =
    [("a.mp4"%string, Some (DataBlob [Byte.x01] "video/mp4"));
     ("b.mp4"%string, Some (DataBlob [Byte.x01] "video/mp4"))] /\
  downloads (snd (handleZip
                    (snd (@handleProcess decimal_string (inr tt) (both_converted [(1 # 2)%Q])
                            example_options two_files)))) =
    [("processed-videos.zip"%string,
      Some (ZipBlob [("a.mp4"%string, DataBlob [Byte.x01] "video/mp4");
                     ("b.mp4"%string, DataBlob [Byte.x01] "video/mp4")]))].
Proof.
  assert (Hne : [("a.mp4"%string, DataBlob [Byte.x01] "video/mp4");
                 ("b.mp4"%string, DataBlob [Byte.x01] "video/mp4")] <> [])
    by discriminate.
  split; [exact Hne|]. split; [reflexivity|].
  exact (proj1 (proj2 (handleZip_downloads_ready_outputs
                         (snd (@handleProcess decimal_string (inr tt)
                                 (both_converted [(1 # 2)%Q]) example_options two_files))
                         [("a.mp4"%string, DataBlob [Byte.x01] "video/mp4");
                          ("b.mp4"%string, DataBlob [Byte.x01] "video/mp4")]
                         Hne eq_refl))).
Defined.

Lemma handleZip_dead_url_blocks_archive_witness :
  In ("b.mp4"%string, None)
     (ready_outputs
        (with_object_urls (<[1%nat := None]>)
           (snd (@handleProcess decimal_string (inr tt) (both_converted [(1 # 2)%Q])
                   example_options two_files)))) /\
  snd (handleZip
     (with_object_urls (<[1%nat := None]>)
        (snd (@handleProcess decimal_string (inr tt) (both_converted [(1 # 2)%Q])
                example_options two_files)))) =
  with_object_urls (<[1%nat := None]>)
        (snd (@handleProcess decimal_string (inr tt) (both_converted [(1 # 2)%Q])
                example_options two_files)).
Proof.
  assert (Hin : In ("b.mp4"%string, None)
     (ready_outputs
        (with_object_urls (<[1%nat := None]>)
           (snd (@handleProcess decimal_string (inr tt) (both_converted [(1 # 2)%Q])
                   example_options two_files))))) by (vm_compute; right; left; reflexivity).
  split; [exact Hin|].
  exact (proj2 (handleZip_dead_url_blocks_archive
                     (with_object_urls (<[1%nat := None]>)
                        (snd (@handleProcess decimal_string (inr tt)
                                (both_converted [(1 # 2)%Q]) example_options two_files)))
                     "b.mp4" Hin)).
Defined.

Lemma handleProcess_then_handleZip_witness :
  jobs two_files <> [] /\
  fst (await_getFFmpeg (Some OnAcquire) (inr tt) two_files) = inr 0%nat /\
  downloads (snd (handleZip
                    (snd (@handleProcess decimal_string (inr tt) (second_fails invalid_data)
                            example_options two_files)))) =
    [("processed-videos.zip"%string,
      Some (ZipBlob [("a.mp4"%string, DataBlob [Byte.x01] "video/mp4")]))].
Proof.
  assert (Hne : jobs two_files <> []) by discriminate.
  split; [exact Hne|]. split; [reflexivity|].
  exact (proj2 (proj2 (proj2 (@handleProcess_then_handleZip decimal_string (inr tt)
                                (second_fails invalid_data) example_options two_files
                                0%nat Hne eq_refl)))).
Defined.

Lemma handleProcess_done_job_artifact_witness :
  fst (await_getFFmpeg (Some OnAcquire) (inr tt) two_files) = inr 0%nat /\
  jobs two_files !! 0%nat =
    Some {| file := video "a.mov" [Byte.x00]; outputName := "a.mp4"; progress := 0;
            status := Pending; error := None; downloadUrl := None |} /\
  well_formed (video "a.mov" [Byte.x00]) (second_fails invalid_data 0) /\
  exists j' out url,
    jobs (snd (@handleProcess decimal_string (inr tt) (second_fails invalid_data)
                 example_options two_files)) !! 0%nat = Some j' /\
    status j' = Done /\
    outputName j' = "a.mp4" /\
    env_readFile (second_fails invalid_data 0) = inr out /\
    downloadUrl j' = Some url /\
    (0 <= url)%nat /\
    object_urls (snd (@handleProcess decimal_string (inr tt) (second_fails invalid_data)
                        example_options two_files)) !! url =
      Some (Some (DataBlob out "video/mp4")).
Proof.
  split; [reflexivity|]. split; [reflexivity|]. split; [reflexivity|].
  exact (@handleProcess_done_job_artifact decimal_string (inr tt)
           (second_fails invalid_data) example_options two_files 0%nat 0%nat
           {| file := video "a.mov" [Byte.x00]; outputName := "a.mp4"; progress := 0;
              status := Pending; error := None; downloadUrl := None |}
           eq_refl eq_refl eq_refl).
Defined.

Lemma handleProcess_never_clears_fields_witness :
  fst (await_getFFmpeg (Some OnAcquire) (inr tt) after_second_fails) = inr 0%nat /\
  jobs after_second_fails !! 0%nat =
    Some {| file := video "a.mov" [Byte.x00]; outputName := "a.mp4"; progress := 25;
            status := Done; error := None; downloadUrl := Some 0%nat |} /\
  jobs after_second_fails !! 1%nat =
    Some {| file := video "b.mov" [Byte.xff]; outputName := "b.mp4"; progress := 25;
            status := Error; error := Some "Invalid data found when processing input";
            downloadUrl := None |} /\
  job_failure (video "a.mov" [Byte.x00]) (first_fails invalid_data 0) = Some invalid_data /\
  well_formed (video "b.mov" [Byte.xff]) (first_fails invalid_data 1) /\
  (exists j',
     jobs (snd (@handleProcess decimal_string (inr tt) (first_fails invalid_data)
                  example_options after_second_fails)) !! 0%nat = Some j' /\
     status j' = Error /\ outputName j' = "a.mp4" /\ downloadUrl j' = Some 0%nat) /\
  (exists j',
     jobs (snd (@handleProcess decimal_string (inr tt) (first_fails invalid_data)
                  example_options after_second_fails)) !! 1%nat = Some j' /\
     status j' = Done /\
     error j' = Some "Invalid data found when processing input").
Proof.
  assert (Hacq : fst (await_getFFmpeg (Some OnAcquire) (inr tt) after_second_fails)
                 = inr 0%nat) by (vm_compute; reflexivity).
  assert (H0 : jobs after_second_fails !! 0%nat =
    Some {| file := video "a.mov" [Byte.x00]; outputName := "a.mp4"; progress := 25;
            status := Done; error := None; downloadUrl := Some 0%nat |})
    by (vm_compute; reflexivity).
  assert (H1 : jobs after_second_fails !! 1%nat =
    Some {| file := video "b.mov" [Byte.xff]; outputName := "b.mp4"; progress := 25;
            status := Error; error := Some "Invalid data found when processing input";
            downloadUrl := None |})
    by (vm_compute; reflexivity).
  destruct (@handleProcess_never_clears_fields decimal_string (inr tt)
              (first_fails invalid_data) example_options after_second_fails 0%nat 0%nat
              _ Hacq H0) as (j0 & Hj0 & _ & Hfail).
  destruct (@handleProcess_never_clears_fields decimal_string (inr tt)
              (first_fails invalid_data) example_options after_second_fails 0%nat 1%nat
              _ Hacq H1) as (j1 & Hj1 & Hdone & _).
  split; [exact Hacq|]. split; [exact H0|]. split; [exact H1|].
  split; [reflexivity|]. split; [reflexivity|]. split.
  - exists j0. split; [exact Hj0|]. exact (Hfail invalid_data eq_refl).
  - exists j1. split; [exact Hj1|]. exact (Hdone eq_refl).
Defined.

Lemma handleProcess_done_progress_without_later_events_witness :
  fst (await_getFFmpeg (Some OnAcquire) (inr tt) two_files) = inr 0%nat /\
  jobs two_files !! 0%nat =
    Some {| file := video "a.mov" [Byte.x00]; outputName := "a.mp4"; progress := 0;
            status := Pending; error := None; downloadUrl := None |} /\
  well_formed (video "a.mov" [Byte.x00]) (only_first_reports 0) /\
  env_progress (only_first_reports 0) = [(1 # 2)%Q; 1%Q] /\
  reaches_exec (file_of two_files 1) (only_first_reports 1) = true /\
  env_progress (only_first_reports 1) = [] /\
  exists j',
    jobs (snd (@handleProcess decimal_string (inr tt) only_first_reports
                 example_options two_files)) !! 0%nat = Some j' /\
    status j' = Done /\ progress j' = 100%Z.
Proof.
  split; [reflexivity|]. split; [reflexivity|]. split; [reflexivity|].
  split; [reflexivity|]. split; [reflexivity|]. split; [reflexivity|].
  apply (@handleProcess_done_progress_without_later_events decimal_string (inr tt)
           only_first_reports example_options two_files 0%nat 0%nat
           {| file := video "a.mov" [Byte.x00]; outputName := "a.mp4"; progress := 0;
              status := Pending; error := None; downloadUrl := None |}
           eq_refl eq_refl eq_refl).
  intros i Hi. change (length (jobs two_files)) with 2%nat in Hi.
  right. destruct i as [|i]; [lia|reflexivity].
Defined.

Lemma handleProcess_allDone_witness :
  jobs two_files <> [] /\
  fst (await_getFFmpeg (Some OnAcquire) (inr tt) two_files) = inr 0%nat /\
  allDone (jobs (snd (@handleProcess decimal_string (inr tt) (both_converted [(1 # 2)%Q])
                        example_options two_files))) = true.
Proof.
  assert (Hne : jobs two_files <> []) by discriminate.
  split; [exact Hne|]. split; [reflexivity|].
  apply (@handleProcess_allDone decimal_string (inr tt) (both_converted [(1 # 2)%Q])
           example_options two_files 0%nat Hne eq_refl).
  intros [|[|i]] j Hj; cbn in Hj; try discriminate; injection Hj as <-; reflexivity.
Defined.

Lemma handleProcess_failed_initialization_is_permanent_witness :
  manager two_files = initial_manager /\
  jobs two_files <> [] /\
  isProcessing (snd (@handleProcess decimal_string (inl (JsError "TypeError" "Failed to fetch"))
                       (both_converted []) example_options two_files)) = true /\
  fst (@handleProcess decimal_string (inr tt) (both_converted []) example_options
         (snd (@handleProcess decimal_string (inl (JsError "TypeError" "Failed to fetch"))
                 (both_converted []) example_options two_files)))
    = inl (JsError "TypeError" "Failed to fetch").
Proof.
  assert (Hne : jobs two_files <> []) by discriminate.
  destruct (@handleProcess_failed_initialization_is_permanent decimal_string
              (JsError "TypeError" "Failed to fetch") (both_converted []) example_options
              two_files (inr tt) (both_converted []) example_options eq_refl Hne)
    as (Hbusy & _ & Hagain & _).
  split; [reflexivity|]. split; [exact Hne|]. split; [exact Hbusy|exact Hagain].
Defined.

Lemma handleProcess_terminal_status_is_final_witness :
  Forall (fun cb => cb = OnAcquire) (all_listeners (manager two_files)) /\
  Forall (fun j => terminal (status j) = false) (jobs two_files) /\
  fst (await_getFFmpeg (Some OnAcquire) (inr tt) two_files) = inr 0%nat /\
  exists history,
    notifications (snd (@handleProcess decimal_string (inr tt) (second_fails invalid_data)
                          example_options two_files)) = notifications two_files ++ history /\
    (forall t t' s s' k st,
       (t <= t')%nat -> history !! t = Some s -> history !! t' = Some s' ->
       statuses s !! k = Some st -> terminal st = true ->
       statuses s' !! k = Some st) /\
    (forall t s k st,
       history !! t = Some s -> statuses s !! k = Some st -> terminal st = true ->
       statuses (jobs (snd (@handleProcess decimal_string (inr tt)
                              (second_fails invalid_data) example_options two_files))) !! k
         = Some st).
Proof.
  assert (Hfresh : Forall (fun j => terminal (status j) = false) (jobs two_files))
    by (repeat constructor).
  assert (Hquiet : Forall (fun cb => cb = OnAcquire) (all_listeners (manager two_files)))
    by constructor.
  split; [exact Hquiet|]. split; [exact Hfresh|]. split; [reflexivity|].
  exact (@handleProcess_terminal_status_is_final decimal_string (inr tt)
           (second_fails invalid_data) example_options two_files 0%nat Hquiet Hfresh eq_refl).
Defined.

Lemma handleProcess_keeps_object_urls_witness :
  in_phase Ready (manager after_second_fails) /\
  object_urls after_second_fails = [Some (DataBlob [Byte.x01] "video/mp4")] /\
  @created_urls decimal_string example_options (first_fails invalid_data) after_second_fails 0
    (length (jobs after_second_fails)) = [Some (DataBlob [Byte.x01] "video/mp4")] /\
  object_urls (snd (@handleProcess decimal_string (inr tt) (first_fails invalid_data)
                      example_options after_second_fails)) =
    object_urls after_second_fails ++
    @created_urls decimal_string example_options (first_fails invalid_data) after_second_fails 0
      (length (jobs after_second_fails)).
Proof.
  assert (Hready : in_phase Ready (manager after_second_fails)).
  { exists {| listeners := [OnAcquire; OnJob 0; OnJob 1] |}. vm_compute. reflexivity. }
  split; [exact Hready|]. split; [vm_compute; reflexivity|].
  split; [vm_compute; reflexivity|].
  exact (proj2 (@handleProcess_keeps_object_urls decimal_string (inr tt)
                  (first_fails invalid_data) example_options after_second_fails) Hready).
Defined.

Lemma zipBlobsAsZipFile_downloads_one_archive_witness :
  Forall (fun f => plain_entry_name (fst f) = true)
    [("a.mp4"%string, DataBlob [Byte.x00] "video/mp4");
     ("b.mp4"%string, DataBlob [Byte.x01] "video/mp4");
     ("a.mp4"%string, DataBlob [Byte.xff] "video/mp4")] /\
  archive [("a.mp4"%string, DataBlob [Byte.x00] "video/mp4");
           ("b.mp4"%string, DataBlob [Byte.x01] "video/mp4");
           ("a.mp4"%string, DataBlob [Byte.xff] "video/mp4")] =
    [("a.mp4"%string, DataBlob [Byte.xff] "video/mp4");
     ("b.mp4"%string, DataBlob [Byte.x01] "video/mp4")] /\
  downloads (snd (zipBlobsAsZipFile
                    [("a.mp4"%string, DataBlob [Byte.x00] "video/mp4");
                     ("b.mp4"%string, DataBlob [Byte.x01] "video/mp4");
                     ("a.mp4"%string, DataBlob [Byte.xff] "video/mp4")]
                    "out.zip" (fresh_world []))) =
    downloads (fresh_world []) ++
    [("out.zip"%string,
      Some (ZipBlob (archive [("a.mp4"%string, DataBlob [Byte.x00] "video/mp4");
                              ("b.mp4"%string, DataBlob [Byte.x01] "video/mp4");
                              ("a.mp4"%string, DataBlob [Byte.xff] "video/mp4")])))].
Proof.
  assert (Hplain : Forall (fun f => plain_entry_name (fst f) = true)
    [("a.mp4"%string, DataBlob [Byte.x00] "video/mp4");
     ("b.mp4"%string, DataBlob [Byte.x01] "video/mp4");
     ("a.mp4"%string, DataBlob [Byte.xff] "video/mp4")])
    by (repeat constructor).
  split; [exact Hplain|]. split; [reflexivity|].
  exact (proj1 (proj2 (zipBlobsAsZipFile_downloads_one_archive _ "out.zip"
                         (fresh_world []) Hplain))).
Defined.
